(** * libopenapi low-level builders: [v3.Paths] and [v2.Responses]

    A shallow embedding of [datamodel/low/v3/paths.go] and
    [datamodel/low/v2/responses.go]: the lookup accessors, [Build] and
    [Hash] of the two collection objects, together with the parts of the
    Go standard library they call ([strings], [sort], [fmt],
    [crypto/sha256]). *)

From Stdlib Require Import ZArith Lia Ascii.
From stdpp Require Import base option list strings sorting gmap pretty.

Local Open Scope Z_scope.
#[local] Set Warnings "-clear-no-such-hyp".

(** ** Go standard library *)

(** [package strings]. A Go string is a sequence of bytes, as is a Rocq
    [string]. *)
Module strings.

(** [ToLower] on one byte: only 'A'..'Z' change. *)
Definition lower_byte (c : ascii) : ascii :=
  let n := N_of_ascii c in
  if ((65 <=? n) && (n <=? 90))%N then ascii_of_N (n + 32) else c.

(** [strings.ToLower]. Go lower-cases every Unicode letter; the embedding
    lower-cases the ASCII letters. The two differ only on letters outside
    ASCII, none of which lower-cases to a letter of ["x-"] or ["default"]
    (the only strings a lower-cased text is compared with here), so every
    test made in the two builders has the same outcome. *)
Fixpoint ToLower (s : string) : string :=
  match s with
  | EmptyString => EmptyString
  | String c s' => String (lower_byte c) (ToLower s')
  end.

(** [strings.HasPrefix s prefix]. *)
Fixpoint HasPrefix (s prefix : string) : bool :=
  match prefix, s with
  | EmptyString, _ => true
  | String p prefix', String c s' => Ascii.eqb c p && HasPrefix s' prefix'
  | String _ _, EmptyString => false
  end.

(** [strings.Join elems sep]. *)
Fixpoint Join (elems : list string) (sep : string) : string :=
  match elems with
  | [] => ""
  | [e] => e
  | e :: rest => e +:+ sep +:+ Join rest sep
  end.

End strings.

(** [package sort]. [sort.Strings] sorts a slice into increasing byte-wise
    lexicographic order; [String.le] is that order. *)
Module sort.
Definition Strings (l : list string) : list string := merge_sort String.le l.
End sort.

(** [package crypto/sha256]: SHA-256 (FIPS 180-4) on 32-bit words held in
    [Z], every addition reduced modulo [2^32]. *)
Module sha256.

Definition Size : nat := 32.

Definition w32 (x : Z) : Z := x mod 2 ^ 32.
Definition add32 (x y : Z) : Z := w32 (x + y).
Definition rotr (n x : Z) : Z :=
  Z.lor (Z.shiftr x n) (w32 (Z.shiftl x (32 - n))).
Definition not32 (x : Z) : Z := w32 (Z.lnot x).

Definition Ch (x y z : Z) := Z.lxor (Z.land x y) (Z.land (not32 x) z).
Definition Maj (x y z : Z) :=
  Z.lxor (Z.lxor (Z.land x y) (Z.land x z)) (Z.land y z).
Definition bigS0 x := Z.lxor (Z.lxor (rotr 2 x) (rotr 13 x)) (rotr 22 x).
Definition bigS1 x := Z.lxor (Z.lxor (rotr 6 x) (rotr 11 x)) (rotr 25 x).
Definition smallS0 x := Z.lxor (Z.lxor (rotr 7 x) (rotr 18 x)) (Z.shiftr x 3).
Definition smallS1 x := Z.lxor (Z.lxor (rotr 17 x) (rotr 19 x)) (Z.shiftr x 10).

Definition K : list Z :=
  [1116352408; 1899447441; 3049323471; 3921009573; 961987163; 1508970993;
   2453635748; 2870763221; 3624381080; 310598401; 607225278; 1426881987;
   1925078388; 2162078206; 2614888103; 3248222580; 3835390401; 4022224774;
   264347078; 604807628; 770255983; 1249150122; 1555081692; 1996064986;
   2554220882; 2821834349; 2952996808; 3210313671; 3336571891; 3584528711;
   113926993; 338241895; 666307205; 773529912; 1294757372; 1396182291;
   1695183700; 1986661051; 2177026350; 2456956037; 2730485921; 2820302411;
   3259730800; 3345764771; 3516065817; 3600352804; 4094571909; 275423344;
   430227734; 506948616; 659060556; 883997877; 958139571; 1322822218;
   1537002063; 1747873779; 1955562222; 2024104815; 2227730452; 2361852424;
   2428436474; 2756734187; 3204031479; 3329325298].

(** The eight working variables / the chaining value. *)
Record state := mkState { sa : Z; sb : Z; sc : Z; sd : Z;
                          se : Z; sf : Z; sg : Z; sh : Z }.

Definition init : state :=
  mkState 1779033703 3144134277 1013904242 2773480762
          1359893119 2600822924 528734635 1541459225.

Definition bytes_of_string (s : string) : list Z :=
  (λ c, Z.of_N (N_of_ascii c)) <$> String.list_ascii_of_string s.

(** Big-endian bytes of the low [8 * n] bits of [x]. *)
Fixpoint be_bytes (n : nat) (x : Z) : list Z :=
  match n with
  | O => []
  | S n' => (Z.shiftr x (8 * Z.of_nat n')) mod 256 :: be_bytes n' x
  end.

Definition be_word (bs : list Z) : Z :=
  fold_left (λ acc b, acc * 256 + b) bs 0.

(** The message, the bit 1, zero bits up to 448 modulo 512, and the
    message length in bits on 64 bits. *)
Definition pad (msg : list Z) : list Z :=
  let len := Z.of_nat (length msg) in
  msg ++ [128] ++ replicate (Z.to_nat ((55 - len) mod 64)) 0
      ++ be_bytes 8 (8 * len).

(** Cut a list into pieces of [n] elements. *)
Fixpoint chunks {A} (fuel n : nat) (l : list A) : list (list A) :=
  match fuel, l with
  | O, _ | _, [] => []
  | S fuel', _ => take n l :: chunks fuel' n (drop n l)
  end.

(** [W_t] for [t = length ws .. length ws + n - 1], appended to [ws]. *)
Fixpoint schedule (n : nat) (ws : list Z) : list Z :=
  match n with
  | O => ws
  | S n' =>
      let t := length ws in
      let at_ k := nth (t - k) ws 0 in
      schedule n'
        (ws ++ [add32 (add32 (smallS1 (at_ 2%nat)) (at_ 7%nat))
                      (add32 (smallS0 (at_ 15%nat)) (at_ 16%nat))])
  end.

Definition round (s : state) (kw : Z * Z) : state :=
  let 'mkState a b c d e f g h := s in
  let t1 := add32 (add32 (add32 h (bigS1 e)) (add32 (Ch e f g) kw.1)) kw.2 in
  let t2 := add32 (bigS0 a) (Maj a b c) in
  mkState (add32 t1 t2) a b c (add32 d t1) e f g.

Definition compress (s : state) (block : list Z) : state :=
  let ws := schedule 48 (be_word <$> chunks 16 4 block) in
  let 'mkState a b c d e f g h := fold_left round (zip K ws) s in
  mkState (add32 (sa s) a) (add32 (sb s) b) (add32 (sc s) c) (add32 (sd s) d)
          (add32 (se s) e) (add32 (sf s) f) (add32 (sg s) g) (add32 (sh s) h).

(** [sha256.Sum256]: the [[32]byte] digest, as its 32 bytes. *)
Definition Sum256 (data : string) : list Z :=
  let m := pad (bytes_of_string data) in
  let 'mkState a b c d e f g h :=
    fold_left compress (chunks (length m) 64 m) init in
  be_bytes 4 a ++ be_bytes 4 b ++ be_bytes 4 c ++ be_bytes 4 d ++
  be_bytes 4 e ++ be_bytes 4 f ++ be_bytes 4 g ++ be_bytes 4 h.

End sha256.

(** [package fmt]: the verbs the builders use. *)
Module fmt.

Definition hex_digit (d : Z) : ascii :=
  ascii_of_N (Z.to_N (if d <? 10 then 48 + d else 87 + d)).

(** [%x] of a byte array: two lower-case hexadecimal digits per byte. *)
Fixpoint hex (bs : list Z) : string :=
  match bs with
  | [] => ""
  | b :: bs' => String (hex_digit (b / 16)) (String (hex_digit (b mod 16)) (hex bs'))
  end.

(** [%d] of an [int]. *)
Definition dec (n : Z) : string := pretty n.

End fmt.

(** ** [gopkg.in/yaml.v3]: the parsed document tree *)
Module yaml.

Inductive Kind :=
  DocumentNode | SequenceNode | MappingNode | ScalarNode | AliasNode.

(** [yaml.Node], with the fields the builders read. A mapping node holds
    its keys and values alternating in [Content]. *)
#[warnings="-register-all"] Inductive Node := mkNode {
  NodeKind : Kind;
  Value : string;
  Content : list Node;
  Line : Z;
  Column : Z
}.

End yaml.

(** ** [package low]: position-tracked references *)

(** [low.KeyReference[string]]. *)
Module KeyReference.
Record t := mk { Value : string; KeyNode : option yaml.Node }.
End KeyReference.

(** [low.ValueReference[T]]. *)
Module ValueReference.
Record t (T : Type) := mk { Value : T; ValueNode : option yaml.Node }.
Arguments mk {T} _ _.
Arguments Value {T} _.
Arguments ValueNode {T} _.
End ValueReference.

(** [low.NodeReference[T]]. *)
Module NodeReference.
Record t (T : Type) :=
  mk { Value : T; ValueNode : option yaml.Node; KeyNode : option yaml.Node }.
Arguments mk {T} _ _ _.
Arguments Value {T} _.
Arguments ValueNode {T} _.
Arguments KeyNode {T} _.

(** Modelled from the spec: [IsEmpty] is not under [src/]. By the data
    model a node reference pairs a value with its key and value nodes, and
    a bundled field is hashed "only when present/non-empty": a reference
    is empty when it carries neither node. *)
Definition IsEmpty {T} (n : t T) : bool :=
  match KeyNode n, ValueNode n with
  | None, None => true
  | _, _ => false
  end.
End NodeReference.

(** ** [package orderedmap] *)

(** Modelled from the spec: the package is not under [src/]. By sections 3
    and 4.1 an ordered map has unique keys and keeps insertion order; [set]
    overwrites the value of a present key and appends an absent one;
    [delete] removes a key and keeps the order of the others; iteration
    ([First], [Next]) visits the entries in insertion order. By section 4.2
    two key references are the same key when their decoded values are the
    same string. *)
Module orderedmap.

(** Modelled from the spec: the type [orderedmap.Map] with
    [low.KeyReference[string]] keys, as its entries in insertion order. *)
Definition Map (V : Type) : Type := list (KeyReference.t * V).

(** Modelled from the spec: equality of keys (section 4.2), on the decoded
    value. *)
Definition same_key (k1 k2 : KeyReference.t) : bool :=
  String.eqb (KeyReference.Value k1) (KeyReference.Value k2).

(** Modelled from the spec: [orderedmap.New], the empty map. *)
Definition New {V} : Map V := [].

(** Modelled from the spec: [Set] (section 4.1) overwrites the value of a
    present key and appends an absent key at the end. *)
Fixpoint Set_ {V} (m : Map V) (k : KeyReference.t) (v : V) : Map V :=
  match m with
  | [] => [(k, v)]
  | (k', v') :: m' =>
      if same_key k' k then (k', v) :: m' else (k', v') :: Set_ m' k v
  end.

(** Modelled from the spec: [Delete] (section 4.1) removes the key and
    keeps the relative order of the other entries. *)
Definition Delete {V} (m : Map V) (k : KeyReference.t) : Map V :=
  filter (λ e, same_key e.1 k = false) m.

(** Modelled from the spec: iteration with [First] and [Next] (section
    4.1), forward in insertion order. A field of type [orderedmap.Map] may
    be nil; [First] and [Len] accept nil and see no entry. *)
Definition pairs {V} (m : option (Map V)) : list (KeyReference.t * V) :=
  default [] m.

Definition Len {V} (m : option (Map V)) : nat := length (pairs m).

(** The decoded keys, in iteration order. *)
Definition keys {V} (m : list (KeyReference.t * V)) : list string :=
  (λ e, KeyReference.Value e.1) <$> m.

(** The invariant of the container: decoded keys are unique. *)
Definition wf {V} (m : list (KeyReference.t * V)) : Prop := NoDup (keys m).

End orderedmap.

(** ** [package index] *)
Module index.

(** Modelled from the spec: [index.SpecIndex] and [low.LocateRefNode] are
    not under [src/]. By section 4.4 the index locates the target node of
    a reference, tells whether circular references are tolerated, and may
    have a logger. [Locate] returns what the builders read of
    [low.LocateRefNode]: the located node (or nil) and an error (or nil).
    The builders are given an index: [idx] is not nil. *)
Record SpecIndex := mk {
  Locate : yaml.Node → option yaml.Node * option string;
  AllowCircularReferenceResolving : bool;
  HasLogger : bool   (* [GetLogger() != nil] *)
}.

End index.

(** [low.GenerateHashString] applied to a pointer to a [T] ([None] is the
    nil pointer). *)
Class Hashable (T : Type) := GenerateHashString : option T → string.

(** The parts of packages [utils] and [low], and the child objects, that
    the two builders call and that live outside the two files. *)
Class Externals := {
  PathItem : Type;
  Response : Type;
  Any : Type;
  PathItem_hashable :: Hashable PathItem;
  Response_hashable :: Hashable Response;
  (** [fmt.Sprint] of an extension value. *)
  Sprint : Any → string;
  (** [utils.NodeAlias]. *)
  NodeAlias : yaml.Node → yaml.Node;
  (** [utils.CheckForMergeNodes] updates the node in place: the node after
      the call. *)
  CheckForMergeNodes : yaml.Node → yaml.Node;
  (** [utils.IsNodeRefValue], first result. *)
  IsNodeRefValue : yaml.Node → bool;
  (** [low.ExtractExtensions]: the entries of the native map it returns, in
      the order a [range] visits them. *)
  ExtractExtensions : yaml.Node → list (KeyReference.t * ValueReference.t Any);
  (** [low.ExtractMapNoLookup[*Response]]: the map (or nil) and the error
      (or nil). *)
  ExtractMapNoLookup :
    yaml.Node → index.SpecIndex →
    option (orderedmap.Map (ValueReference.t (option Response))) * option string;
  (** [new(PathItem)], [low.BuildModel] and [PathItem.Build] on it: the
      path item after the calls and the error (or nil) of [Build]. *)
  BuildPathItem :
    option yaml.Node → yaml.Node → index.SpecIndex → PathItem * option string
}.

Module utils.

(** Modelled from the spec: [utils.IsNodeMap] is not under [src/]. By
    section 6 a node carries a kind tag (scalar, mapping, sequence, alias)
    and by section 7 a root is malformed when it is not a mapping. *)
Definition IsNodeMap (n : yaml.Node) : bool :=
  match yaml.NodeKind n with yaml.MappingNode => true | _ => false end.

End utils.

Module low.

(** Modelled from the spec: [low.Reference] is not under [src/]; the
    builders only allocate one. *)
Inductive Reference := zeroReference.

(** Modelled from the spec: [low.LocateRefNode] is not under [src/]; its
    first and third results are what the index locates (section 4.4). *)
Definition LocateRefNode (pNode : yaml.Node) (idx : index.SpecIndex)
  : option yaml.Node * option string := index.Locate idx pNode.

(** Modelled from the spec: [low.FindItemInOrderedMap] is not under
    [src/]. By section 4.5 lookup is a linear scan by key, and by section
    4.2 a key matches by string equality on its decoded value. *)
Fixpoint FindItemInOrderedMap_pairs {V} (item : string)
    (l : list (KeyReference.t * V)) : option V :=
  match l with
  | [] => None
  | (k, v) :: l' =>
      if String.eqb (KeyReference.Value k) item then Some v
      else FindItemInOrderedMap_pairs item l'
  end.

(** Modelled from the spec: [low.FindItemInOrderedMap] on a map that may
    be nil. *)
Definition FindItemInOrderedMap {V} (item : string)
    (collection : option (orderedmap.Map V)) : option V :=
  FindItemInOrderedMap_pairs item (orderedmap.pairs collection).

(** The root both [Build] methods work on: [root = utils.NodeAlias(root)]
    followed by [utils.CheckForMergeNodes(root)]. *)
Definition prepared `{Externals} (root : yaml.Node) : yaml.Node :=
  CheckForMergeNodes (NodeAlias root).

(** The entries of a native [map[string]V] filled by assigning the
    entries of [l] from first to last. *)
Definition assign_all {V} (l : list (string * V)) : gmap string V :=
  fold_left (λ m e, <[e.1 := e.2]> m) l ∅.

(** The decoded key and the value of an entry, without its nodes. *)
Definition content {V} (e : KeyReference.t * ValueReference.t V) : string * V :=
  (KeyReference.Value e.1, ValueReference.Value e.2).

(** The rendering of the extensions shared by both [Hash] methods:
    [key-%x] of the SHA-256 of the printed value, one string per entry
    visited. *)
Definition extension_lines `{Externals}
    (ext : list (KeyReference.t * ValueReference.t Any)) : list string :=
  (λ e, KeyReference.Value e.1 +:+ "-" +:+
        fmt.hex (sha256.Sum256 (Sprint (ValueReference.Value e.2)))) <$> ext.

End low.

(** ** [datamodel/low/v2/responses.go] *)
Module v2.
Section Responses.
Context `{Externals}.

(** Modelled from the spec: the constant [DefaultLabel] is declared
    outside [src/]; the reserved key of a response collection is
    ["default"]. *)
Definition DefaultLabel : string := "default".

Definition Codes_t : Type :=
  option (orderedmap.Map (ValueReference.t (option Response))).

Record Responses := mkResponses {
  Codes : Codes_t;
  Default : NodeReference.t (option Response);
  Extensions : list (KeyReference.t * ValueReference.t Any)
}.

(** [getDefault]'s loop over the pairs of [r.Codes]. *)
Fixpoint getDefault_pairs
    (l : list (KeyReference.t * ValueReference.t (option Response)))
    : option (NodeReference.t (option Response)) :=
  match l with
  | [] => None
  | (k, v) :: l' =>
      if String.eqb (strings.ToLower (KeyReference.Value k)) DefaultLabel
      then Some (NodeReference.mk (ValueReference.Value v)
                                  (ValueReference.ValueNode v)
                                  (KeyReference.KeyNode k))
      else getDefault_pairs l'
  end.

Definition getDefault (r : Responses)
    : option (NodeReference.t (option Response)) :=
  getDefault_pairs (orderedmap.pairs (Codes r)).

(** The first loop of [deleteCode]: the key of the first pair whose
    decoded key is [code]. *)
Fixpoint deleteCode_key {V} (code : string) (l : list (KeyReference.t * V))
    : option KeyReference.t :=
  match l with
  | [] => None
  | (k, _) :: l' =>
      if String.eqb (KeyReference.Value k) code then Some k
      else deleteCode_key code l'
  end.

Definition deleteCode (r : Responses) (code : string) : Responses :=
  let key :=
    match Codes r with
    | Some m => deleteCode_key code m
    | None => None
    end in
  match key with
  | Some k =>
      mkResponses ((λ m, orderedmap.Delete m k) <$> Codes r)
                  (Default r) (Extensions r)
  | None => r
  end.

(** [Build]: the receiver after the call and the error returned ([None]
    is nil). *)
Definition Build (r : Responses) (root : yaml.Node) (idx : index.SpecIndex)
    : Responses * option string :=
  let root := low.prepared root in
  let r := mkResponses (Codes r) (Default r) (ExtractExtensions root) in
  if utils.IsNodeMap root then
    let '(codes, err) := ExtractMapNoLookup root idx in
    match err with
    | Some e => (r, Some e)
    | None =>
        let r :=
          match codes with
          | Some c => mkResponses (Some c) (Default r) (Extensions r)
          | None => r
          end in
        match getDefault r with
        | Some def =>
            (deleteCode (mkResponses (Codes r) def (Extensions r)) DefaultLabel,
             None)
        | None => (r, None)
        end
    end
  else
    (r, Some ("responses build failed: vn node is not a map! line " +:+
              fmt.dec (yaml.Line root) +:+ ", col " +:+
              fmt.dec (yaml.Column root))).

Definition FindResponseByCode (r : Responses) (code : string)
    : option (ValueReference.t (option Response)) :=
  low.FindItemInOrderedMap code (Codes r).

(** The slice [f] of [Hash] before it is joined and hashed. *)
Definition Hash_lines (r : Responses) : list string :=
  let ps := orderedmap.pairs (Codes r) in
  let keys := orderedmap.keys ps in
  let cmap : gmap string (option Response) :=
    low.assign_all
      ((λ e, (KeyReference.Value e.1, ValueReference.Value e.2)) <$> ps) in
  let keys := sort.Strings keys in
  let f :=
    (λ k, k +:+ "-" +:+ GenerateHashString (default None (cmap !! k)))
      <$> keys in
  let f :=
    if negb (NodeReference.IsEmpty (Default r))
    then f ++ [GenerateHashString (NodeReference.Value (Default r))]
    else f in
  f ++ sort.Strings (low.extension_lines (Extensions r)).

Definition Hash (r : Responses) : list Z :=
  sha256.Sum256 (strings.Join (Hash_lines r) "|").

End Responses.
End v2.

(** ** [datamodel/low/v3/paths.go] *)
Module v3.
Section Paths.
Context `{Externals}.

Definition PathItems_t : Type :=
  option (orderedmap.Map (ValueReference.t (option PathItem))).

Record Paths := mkPaths {
  PathItems : PathItems_t;
  Extensions : list (KeyReference.t * ValueReference.t Any);
  Reference : option low.Reference
}.

Fixpoint FindPath_pairs {V} (path : string) (l : list (KeyReference.t * V))
    : option V :=
  match l with
  | [] => None
  | (k, v) :: l' =>
      if String.eqb (KeyReference.Value k) path then Some v
      else FindPath_pairs path l'
  end.

Definition FindPath (p : Paths) (path : string)
    : option (ValueReference.t (option PathItem)) :=
  FindPath_pairs path (orderedmap.pairs (PathItems p)).

Fixpoint FindPathAndKey_pairs {V} (path : string)
    (l : list (KeyReference.t * V)) : option KeyReference.t * option V :=
  match l with
  | [] => (None, None)
  | (k, v) :: l' =>
      if String.eqb (KeyReference.Value k) path then (Some k, Some v)
      else FindPathAndKey_pairs path l'
  end.

Definition FindPathAndKey (p : Paths) (path : string) :=
  FindPathAndKey_pairs path (orderedmap.pairs (PathItems p)).

Definition GetExtensions (p : Paths) := Extensions p.

Record buildResult := mkResult {
  key : KeyReference.t;
  value : ValueReference.t (option PathItem)
}.

Record buildInput := mkInput {
  currentNode : option yaml.Node;
  pathNode : yaml.Node
}.

(** The input goroutine: what it sends on [in] while walking
    [root.Content] from index [i], with the loop variables [skip] and
    [currentNode]. (It stops early only once [done] is closed, which
    happens after the pipeline has stopped reading.) *)
Fixpoint producer_from (i : nat) (skip : bool) (current : option yaml.Node)
    (content : list yaml.Node) : list buildInput :=
  match content with
  | [] => []
  | pathNode :: rest =>
      if strings.HasPrefix (strings.ToLower (yaml.Value pathNode)) "x-"
      then producer_from (S i) true current rest
      else if skip then producer_from (S i) false current rest
      else if Nat.even i then producer_from (S i) false (Some pathNode) rest
      else mkInput current pathNode :: producer_from (S i) false current rest
  end.

Definition producer (content : list yaml.Node) : list buildInput :=
  producer_from 0 false None content.

(** The test the producer makes on the node it visits. *)
Definition prefixed (n : yaml.Node) : bool :=
  strings.HasPrefix (strings.ToLower (yaml.Value n)) "x-".

(** The flat child list of a mapping with the given (key, value) pairs. *)
Definition flat_content (kvs : list (yaml.Node * yaml.Node))
    : list yaml.Node :=
  kvs ≫= λ kv, [kv.1; kv.2].

(** What one call of the translate function leaves behind: the lines it
    logs, and its result or its error. [None] stands for a run-time panic
    (a nil or out-of-range dereference). *)
Definition translated : Type := option (list string * (buildResult + string)).

(** The translate function handed to [TranslatePipeline]. *)
Definition translate (idx : index.SpecIndex) (input : buildInput) : translated :=
  let pNode := pathNode input in
  let cNode := currentNode input in
  let resolved : option (yaml.Node + string) :=
    if IsNodeRefValue pNode then
      let '(r, err) := low.LocateRefNode pNode idx in
      match r with
      | Some r =>
          match err with
          | Some e =>
              if negb (index.AllowCircularReferenceResolving idx)
              then Some (inr ("path item build failed: " +:+ e))
              else Some (inl r)
          | None => Some (inl r)
          end
      | None =>
          n ← yaml.Content pNode !! 1%nat;
          Some (inr ("path item build failed: cannot find reference: " +:+
                     yaml.Value n +:+ " at line " +:+ fmt.dec (yaml.Line n) +:+
                     ", col " +:+ fmt.dec (yaml.Column n)))
      end
    else Some (inl pNode) in
  match resolved with
  | None => None
  | Some (inr e) => Some ([], inr e)
  | Some (inl pNode) =>
      let '(path, err) := BuildPathItem cNode pNode idx in
      let logged :=
        match err with
        | Some e =>
            if index.HasLogger idx
            then ["error building path item '" +:+ e +:+ "'"]
            else []
        | None => []
        end in
      c ← cNode;
      Some (logged,
            inl (mkResult (KeyReference.mk (yaml.Value c) (Some c))
                          (ValueReference.mk (Some path) (Some pNode))))
  end.

(** Modelled from the spec: [datamodel.TranslatePipeline] is not under
    [src/]. By sections 4.5 and 5 the workers translate the submitted
    inputs concurrently and complete in an order not tied to submission
    order; results reach the single consumer as they complete; the first
    failure encountered ends the pipeline and is its error. [run] takes
    the jobs in their completion order and gives the results emitted, the
    lines logged, and the error (or nil); [None] when a job panics. *)
Fixpoint run (idx : index.SpecIndex) (completion : list buildInput)
    : option (list buildResult * list string * option string) :=
  match completion with
  | [] => Some ([], [], None)
  | job :: rest =>
      match translate idx job with
      | None => None
      | Some (logged, inr e) => Some ([], logged, Some e)
      | Some (logged, inl res) =>
          '(outs, logged', err) ← run idx rest;
          Some (res :: outs, logged ++ logged', err)
      end
  end.

(** The error with which the translate function fails on an input, if it
    fails. *)
Definition failure (idx : index.SpecIndex) (input : buildInput)
    : option string :=
  match translate idx input with
  | Some (_, inr e) => Some e
  | _ => None
  end.

(** The result the translate function gives for an input, if it gives
    one. *)
Definition result (idx : index.SpecIndex) (input : buildInput)
    : option buildResult :=
  match translate idx input with
  | Some (_, inl res) => Some res
  | _ => None
  end.

(** Whether the translate function panics on an input. *)
Definition panics (idx : index.SpecIndex) (input : buildInput) : bool :=
  match translate idx input with
  | None => true
  | Some _ => false
  end.

(** The line logged for the error [e] of a path item's [Build]. *)
Definition error_line (e : string) : string :=
  "error building path item '" +:+ e +:+ "'".

(** The node a value stands for: itself, or the located target of the
    reference it is. *)
Definition stands_for (idx : index.SpecIndex) (pn pn' : yaml.Node) : Prop :=
  (IsNodeRefValue pn = false ∧ pn' = pn)
  ∨ (IsNodeRefValue pn = true
     ∧ ∃ err, low.LocateRefNode pn idx = (Some pn', err)).

(** The output goroutine: every result is stored in [pathsMap]. *)
Definition collect (outs : list buildResult)
    : orderedmap.Map (ValueReference.t (option PathItem)) :=
  fold_left (λ m res, orderedmap.Set_ m (key res) (value res))
            outs orderedmap.New.

(** [Build] when the jobs complete in the order [completion]: the
    receiver after the call, the lines logged and the error returned;
    [None] when a worker panics. *)
Definition Build_in (completion : list buildInput) (p : Paths)
    (root : yaml.Node) (idx : index.SpecIndex)
    : option (Paths * list string * option string) :=
  let root := low.prepared root in
  let p := mkPaths (PathItems p) (ExtractExtensions root)
                   (Some low.zeroReference) in
  '(outs, logged, err) ← run idx completion;
  let pathsMap := collect outs in
  match err with
  | Some e => Some (p, logged, Some e)
  | None => Some (mkPaths (Some pathsMap) (Extensions p) (Reference p),
                  logged, None)
  end.

(** The pairs the producer submits for a root. *)
Definition submitted (root : yaml.Node) : list buildInput :=
  producer (yaml.Content (low.prepared root)).

(** The decoded keys of the submitted pairs, in submission order. *)
Definition submitted_keys (root : yaml.Node) : list string :=
  omap (λ j, yaml.Value <$> currentNode j) (submitted root).

(** [Build]: its outcomes over every completion order of the submitted
    pairs. *)
Inductive Build (p : Paths) (root : yaml.Node) (idx : index.SpecIndex)
    : option (Paths * list string * option string) → Prop :=
| Build_completes completion :
    submitted root ≡ₚ completion →
    Build p root idx (Build_in completion p root idx).

(** The slice [f] of [Hash] before it is joined and hashed. *)
Definition Hash_lines (p : Paths) : list string :=
  let ps := orderedmap.pairs (PathItems p) in
  let l := orderedmap.keys ps in
  let keys : gmap string (ValueReference.t (option PathItem)) :=
    low.assign_all ((λ e, (KeyReference.Value e.1, e.2)) <$> ps) in
  let l := sort.Strings l in
  let f :=
    (λ k, k +:+ "-" +:+
          GenerateHashString (default None (ValueReference.Value <$> keys !! k)))
      <$> l in
  f ++ sort.Strings (low.extension_lines (Extensions p)).

Definition Hash (p : Paths) : list Z :=
  sha256.Sum256 (strings.Join (Hash_lines p) "|").

End Paths.
End v3.

(** ** An instance of the external packages *)

(** The helper packages as the spec describes them, on which the builders
    can be run on concrete documents. Child objects are kept as the node
    they are built from. *)
Module spec_model.

(** The (key, value) pairs of a mapping's flat child list. *)
Fixpoint mapping_pairs (content : list yaml.Node)
    : list (yaml.Node * yaml.Node) :=
  match content with
  | k :: v :: rest => (k, v) :: mapping_pairs rest
  | _ => []
  end.

(** Modelled from the spec: section 4.3, a vendor extension is a key that
    begins (case-sensitively) with the reserved prefix. *)
Definition is_extension (k : yaml.Node) : bool :=
  strings.HasPrefix (yaml.Value k) "x-".

(** Modelled from the spec: section 4.3, [low.ExtractExtensions] returns
    every key that begins with the reserved prefix, paired with its decoded
    value (here the text of the value node). *)
Definition extract_extensions (root : yaml.Node)
    : list (KeyReference.t * ValueReference.t string) :=
  (λ kv, (KeyReference.mk (yaml.Value kv.1) (Some kv.1),
          ValueReference.mk (yaml.Value kv.2) (Some kv.2)))
    <$> filter (λ kv, is_extension kv.1 = true)
               (mapping_pairs (yaml.Content root)).

(** Modelled from the spec: section 4.7, the [Build] of every object
    fails on a root that is not a mapping, with its line and column. *)
Definition child_Build (n : yaml.Node) : option string :=
  if utils.IsNodeMap n then None
  else Some ("build failed: node is not a map! line " +:+
             fmt.dec (yaml.Line n) +:+ ", col " +:+ fmt.dec (yaml.Column n)).

(** Modelled from the spec: sections 4.7 and 7, [low.ExtractMapNoLookup]
    decodes the pairs of a mapping, extensions left out, into an ordered
    map of built children and returns the failure of a child's [Build] at
    once. *)
Fixpoint decode_pairs (kvs : list (yaml.Node * yaml.Node))
    (m : orderedmap.Map (ValueReference.t (option yaml.Node)))
    : option (orderedmap.Map (ValueReference.t (option yaml.Node)))
      * option string :=
  match kvs with
  | [] => (Some m, None)
  | (k, v) :: rest =>
      if strings.HasPrefix (strings.ToLower (yaml.Value k)) "x-"
      then decode_pairs rest m
      else match child_Build v with
           | Some e => (None, Some e)
           | None =>
               decode_pairs rest
                 (orderedmap.Set_ m (KeyReference.mk (yaml.Value k) (Some k))
                                  (ValueReference.mk (Some v) (Some v)))
           end
  end.

Definition extract_map_no_lookup (root : yaml.Node) (idx : index.SpecIndex) :=
  decode_pairs (mapping_pairs (yaml.Content root)) orderedmap.New.

(** Modelled from the spec: section 4.4, a reference is a single-key
    mapping whose key is the reference marker. *)
Definition is_reference (n : yaml.Node) : bool :=
  utils.IsNodeMap n &&
  match yaml.Content n with
  | [k; _] => String.eqb (yaml.Value k) "$ref"
  | _ => false
  end.

(** The text of a node and of its children, which stands for the hash
    string of the child object built from the node. *)
Fixpoint text (n : yaml.Node) : string :=
  yaml.Value n +:+
  (fix texts (l : list yaml.Node) : string :=
     match l with
     | [] => ""
     | c :: l' => "(" +:+ text c +:+ ")" +:+ texts l'
     end) (yaml.Content n).

Definition hash_node : Hashable yaml.Node := λ v,
  match v with
  | Some n => text n
  | None => ""
  end.

#[global] Instance externals : Externals := {|
  PathItem := yaml.Node;
  Response := yaml.Node;
  Any := string;
  PathItem_hashable := hash_node;
  Response_hashable := hash_node;
  Sprint := λ s, s;
  NodeAlias := λ n, n;
  CheckForMergeNodes := λ n, n;
  IsNodeRefValue := is_reference;
  ExtractExtensions := extract_extensions;
  ExtractMapNoLookup := extract_map_no_lookup;
  BuildPathItem := λ _ pNode _, (pNode, child_Build pNode)
|}.

(** *** Sample documents *)

Definition scalar (v : string) (line col : Z) : yaml.Node :=
  yaml.mkNode yaml.ScalarNode v [] line col.
Definition mapping (content : list yaml.Node) (line col : Z) : yaml.Node :=
  yaml.mkNode yaml.MappingNode "" content line col.

(** [{$ref: target}] at the given position. *)
Definition ref (target : string) (line col : Z) : yaml.Node :=
  mapping [scalar "$ref" line col; scalar target line (col + 6)] line col.

(** An index that knows ["#/components/pathItems/Pets"], reports
    ["#/components/pathItems/Loop"] as found but circular, and knows no
    other reference. *)
Definition locate (n : yaml.Node) : option yaml.Node * option string :=
  match yaml.Content n with
  | [_; t] =>
      if String.eqb (yaml.Value t) "#/components/pathItems/Pets"
      then (Some (mapping [scalar "get" 40 5; mapping [] 41 7] 40 5), None)
      else if String.eqb (yaml.Value t) "#/components/pathItems/Loop"
      then (Some (mapping [] 50 5),
            Some "circular reference '#/components/pathItems/Loop' found")
      else (None, Some "reference not found")
  | _ => (None, Some "not a reference")
  end.

Definition strict_index : index.SpecIndex := index.mk locate false true.
Definition lenient_index : index.SpecIndex := index.mk locate true true.

Definition empty_paths : v3.Paths := v3.mkPaths None [] None.
Definition empty_responses : v2.Responses :=
  v2.mkResponses None (NodeReference.mk None None None) [].

(** [{/a: x-rated, /b: {}}]: no key is an extension, one value is a
    scalar that begins with the reserved prefix. *)
Definition key_a := scalar "/a" 1 1.
Definition key_b := scalar "/b" 2 1.
Definition item_b := mapping [] 2 5.
Definition prefixed_value_doc : yaml.Node :=
  mapping [key_a; scalar "x-rated" 1 5; key_b; item_b] 1 1.

(** [{"200": {}, Default: {}, x-bar: 1}]. *)
Definition key_200 := scalar "200" 1 1.
Definition key_Default := scalar "Default" 2 1.
Definition capital_default_doc : yaml.Node :=
  mapping [key_200; mapping [] 1 6; key_Default; mapping [] 2 10;
           scalar "x-bar" 3 1; scalar "1" 3 8] 1 1.

(** [{"200": {}, default: {}, x-bar: 1}]. *)
Definition key_default := scalar "default" 2 1.
Definition default_doc : yaml.Node :=
  mapping [key_200; mapping [] 1 6; key_default; mapping [] 2 10;
           scalar "x-bar" 3 1; scalar "1" 3 8] 1 1.

(** [{"200": ok}]: the child is a scalar, its [Build] fails. *)
Definition bad_child_responses_doc : yaml.Node :=
  mapping [key_200; scalar "ok" 1 6] 1 1.

(** A root that is a scalar. *)
Definition scalar_root : yaml.Node := scalar "oops" 7 3.

(** [{/a: oops, /b: {}}]: the [Build] of the first path item fails. *)
Definition bad_child_paths_doc : yaml.Node :=
  mapping [key_a; scalar "oops" 1 5; key_b; item_b] 1 1.

(** [{/pets: {$ref: ...Pets}, /gone: {$ref: ...Gone}}]. *)
Definition key_pets := scalar "/pets" 1 1.
Definition key_gone := scalar "/gone" 2 1.
Definition gone_ref := ref "#/components/pathItems/Gone" 3 5.
Definition unresolvable_doc : yaml.Node :=
  mapping [key_pets; ref "#/components/pathItems/Pets" 1 8;
           key_gone; gone_ref] 1 1.

(** [{/loop: {$ref: ...Loop}, /b: {}}]. *)
Definition key_loop := scalar "/loop" 1 1.
Definition loop_ref := ref "#/components/pathItems/Loop" 1 8.
Definition circular_doc : yaml.Node :=
  mapping [key_loop; loop_ref; key_b; item_b] 1 1.

(** Two path collections with the same entries in two orders, and one
    extension map visited in two orders. *)
Definition entry (k : yaml.Node) (v : yaml.Node)
    : KeyReference.t * ValueReference.t (option yaml.Node) :=
  (KeyReference.mk (yaml.Value k) (Some k), ValueReference.mk (Some v) (Some v)).
Definition ext (k v : string)
    : KeyReference.t * ValueReference.t string :=
  (KeyReference.mk k None, ValueReference.mk v None).

Definition items_ab := [entry key_a (mapping [] 1 5); entry key_b item_b].
Definition items_ba := [entry key_b item_b; entry key_a (mapping [] 1 5)].
Definition exts_1 := [ext "x-foo" "2"; ext "x-bar" "1"].
Definition exts_2 := [ext "x-bar" "1"; ext "x-foo" "2"].

Definition no_default : NodeReference.t (option yaml.Node) :=
  NodeReference.mk None None None.
Definition paths_ab : v3.Paths := v3.mkPaths (Some items_ab) exts_1 None.
Definition paths_ba : v3.Paths := v3.mkPaths (Some items_ba) exts_1 None.
Definition paths_ba' : v3.Paths :=
  v3.mkPaths (Some items_ba) exts_2 (Some low.zeroReference).
Definition responses_ab : v2.Responses :=
  v2.mkResponses (Some items_ab) no_default exts_1.
Definition responses_ba : v2.Responses :=
  v2.mkResponses (Some items_ba) no_default exts_1.
Definition responses_ba' : v2.Responses :=
  v2.mkResponses (Some items_ba) no_default exts_2.

(** [{/a: {}, x-foo: bar, /b: {}}]. *)
Definition key_b3 := scalar "/b" 3 1.
Definition item_a := mapping [] 1 5.
Definition item_b3 := mapping [] 3 5.
Definition extension_doc : yaml.Node :=
  mapping [key_a; item_a; scalar "x-foo" 2 1; scalar "bar" 2 8;
           key_b3; item_b3] 1 1.

(** [{/pets: {$ref: ...Pets}, /b: {}}] and the node the index locates for
    the reference. *)
Definition pets_ref := ref "#/components/pathItems/Pets" 1 8.
Definition pets_item := mapping [scalar "get" 40 5; mapping [] 41 7] 40 5.
Definition resolved_doc : yaml.Node :=
  mapping [key_pets; pets_ref; key_b; item_b] 1 1.

(** What [Paths.Build] installs for that document when the workers
    complete in submission order, and in the other order. *)
Definition built_resolved_1 : v3.Paths :=
  v3.mkPaths (Some [entry key_pets pets_item; entry key_b item_b]) []
             (Some low.zeroReference).
Definition built_resolved_2 : v3.Paths :=
  v3.mkPaths (Some [entry key_b item_b; entry key_pets pets_item]) []
             (Some low.zeroReference).

(** Two entries with the decoded key [/a]; the first differs between the
    two lists. *)
Definition key_a9 := scalar "/a" 9 1.
Definition items_shadowed_1 := [entry key_a item_a; entry key_a9 item_b].
Definition items_shadowed_2 :=
  [entry key_a (scalar "other" 1 5); entry key_a9 item_b].
Definition paths_shadowed_1 : v3.Paths :=
  v3.mkPaths (Some items_shadowed_1) exts_1 None.
Definition paths_shadowed_2 : v3.Paths :=
  v3.mkPaths (Some items_shadowed_2) exts_1 None.
Definition responses_shadowed_1 : v2.Responses :=
  v2.mkResponses (Some items_shadowed_1) no_default exts_1.
Definition responses_shadowed_2 : v2.Responses :=
  v2.mkResponses (Some items_shadowed_2) no_default exts_1.

(** The entries of [items_ab] read from other positions of a document,
    and the extensions of [exts_1] with their nodes. *)
Definition items_ab_moved :=
  [(KeyReference.mk "/a" None, ValueReference.mk (Some item_a) None);
   (KeyReference.mk "/b" (Some key_b3),
    ValueReference.mk (Some item_b) (Some item_b3))].
Definition exts_1_moved : list (KeyReference.t * ValueReference.t string) :=
  [(KeyReference.mk "x-foo" (Some (scalar "x-foo" 2 1)),
    ValueReference.mk "2" (Some (scalar "2" 2 8)));
   (KeyReference.mk "x-bar" (Some (scalar "x-bar" 3 1)),
    ValueReference.mk "1" (Some (scalar "1" 3 8)))].
Definition paths_ab_moved : v3.Paths :=
  v3.mkPaths (Some items_ab_moved) exts_1_moved (Some low.zeroReference).
Definition responses_ab_moved : v2.Responses :=
  v2.mkResponses (Some items_ab_moved) no_default exts_1_moved.

(** [{x-ext: {$ref: ...Gone}, /b: {}}] and [{x-ext: {$ref: ...Loop}, /b: {}}]:
    the reference is the value of an extension entry. *)
Definition key_ext := scalar "x-ext" 1 1.
Definition ext_gone_ref := ref "#/components/pathItems/Gone" 1 8.
Definition extension_ref_doc : yaml.Node :=
  mapping [key_ext; ext_gone_ref; key_b; item_b] 1 1.
Definition extension_loop_doc : yaml.Node :=
  mapping [key_ext; loop_ref; key_b; item_b] 1 1.

(** [{/loop: {$ref: ...Loop}, /gone: {$ref: ...Gone}}]: two references,
    one circular, one without target. *)
Definition two_references_doc : yaml.Node :=
  mapping [key_loop; loop_ref; key_gone; gone_ref] 1 1.

(** [{x-1: x-2, /k: {}, /gone: {$ref: ...Gone}}]: the value of the
    extension begins with the reserved prefix. *)
Definition key_k := scalar "/k" 2 1.
Definition item_k := mapping [] 2 5.
Definition key_gone3 := scalar "/gone" 3 1.
Definition prefixed_extension_doc : yaml.Node :=
  mapping [scalar "x-1" 1 1; scalar "x-2" 1 6; key_k; item_k;
           key_gone3; gone_ref] 1 1.

(** [{/a: oops, /a: {}}]: two pairs with the same key text. *)
Definition key_a2 := scalar "/a" 2 1.
Definition duplicate_key_doc : yaml.Node :=
  mapping [key_a; scalar "oops" 1 5; key_a2; item_b] 1 1.

(** [{/Pets: {}}] as a built path collection and response collection. *)
Definition key_Pets := scalar "/Pets" 1 1.
Definition paths_Pets : v3.Paths :=
  v3.mkPaths (Some [entry key_Pets (mapping [] 1 8)]) [] None.
Definition responses_Default : v2.Responses :=
  v2.mkResponses (Some [entry key_Default (mapping [] 2 10)])
                 (NodeReference.mk None None None) [].

End spec_model.

(** Replace the pairs submitted for a document by their list. *)
Ltac submitted_list doc :=
  let l := eval vm_compute in (v3.submitted doc) in
  change (v3.submitted doc) with l.

(** * Properties *)

(** ** The standard library functions *)

(** Test vectors of FIPS 180-4 and a message of two blocks. *)
Example sha256_abc :
  fmt.hex (sha256.Sum256 "abc")
  = "ba7816bf8f01cfea414140de5dae2223b00361a396177a9cb410ff61f20015ad"%string.
Proof. vm_compute. reflexivity. Qed.

Example sha256_empty :
  fmt.hex (sha256.Sum256 "")
  = "e3b0c44298fc1c149afbf4c8996fb92427ae41e4649b934ca495991b7852b855"%string.
Proof. vm_compute. reflexivity. Qed.

Example sha256_two_blocks :
  fmt.hex (sha256.Sum256 "aaaaaaaaaaaaaaaaaaaaaaaaaaaaaaaaaaaaaaaaaaaaaaaaaaaaaaaaaaaaaaaaaaaaaa")
  = "6bd5e5034855a11241f0dee8fc72850ffd9955b28347a86428b5fa19119f6ad0"%string.
Proof. vm_compute. reflexivity. Qed.

Lemma Sum256_length (data : string) :
  length (sha256.Sum256 data) = sha256.Size.
Proof.
  unfold sha256.Sum256.
  destruct (fold_left _ _ _) as [a b c d e f g h]. reflexivity.
Qed.

(** Sorting forgets the order of its input. *)
Lemma sort_Strings_Permutation (l1 l2 : list string) :
  l1 ≡ₚ l2 → sort.Strings l1 = sort.Strings l2.
Proof.
  intros Hperm. unfold sort.Strings.
  apply (Sorted_unique String.le).
  - apply Sorted_merge_sort, _.
  - apply Sorted_merge_sort, _.
  - by rewrite !merge_sort_Permutation.
Qed.

Lemma sort_Strings_elem_of (l : list string) (s : string) :
  s ∈ sort.Strings l ↔ s ∈ l.
Proof. unfold sort.Strings. by rewrite merge_sort_Permutation. Qed.

(** ** Native maps filled in a loop *)

Lemma assign_all_from {V} (l : list (string * V)) (m : gmap string V) :
  fold_left (λ m e, <[e.1 := e.2]> m) l m = list_to_map (reverse l) ∪ m.
Proof.
  revert m. induction l as [|[k v] l IH]; intros m; simpl.
  - by rewrite (left_id_L ∅ (∪)).
  - rewrite IH, reverse_cons, list_to_map_app. simpl.
    rewrite insert_empty, <-(assoc_L (∪)).
    by rewrite <-insert_union_singleton_l.
Qed.

Lemma assign_all_list_to_map {V} (l : list (string * V)) :
  low.assign_all l = list_to_map (reverse l).
Proof.
  unfold low.assign_all. rewrite assign_all_from.
  by rewrite (right_id_L ∅ (∪)).
Qed.

(** With pairwise distinct keys the map does not depend on the order of the
    assignments. *)
Lemma assign_all_Permutation {V} (l1 l2 : list (string * V)) :
  NoDup l1.*1 → l1 ≡ₚ l2 → low.assign_all l1 = low.assign_all l2.
Proof.
  intros Hnd Hperm. rewrite !assign_all_list_to_map.
  apply list_to_map_proper.
  - by rewrite reverse_Permutation.
  - by rewrite !reverse_Permutation.
Qed.

(** ** [Hash] *)
Section Hash.
Context `{Externals}.

Lemma keys_Permutation {V} (m1 m2 : list (KeyReference.t * V)) :
  m1 ≡ₚ m2 → orderedmap.keys m1 ≡ₚ orderedmap.keys m2.
Proof. intros Hp. unfold orderedmap.keys. by rewrite Hp. Qed.

Lemma wf_Permutation {V} (m1 m2 : list (KeyReference.t * V)) :
  m1 ≡ₚ m2 → orderedmap.wf m1 → orderedmap.wf m2.
Proof.
  unfold orderedmap.wf. intros Hp. by rewrite (keys_Permutation _ _ Hp).
Qed.

Lemma extension_lines_Permutation
    (e1 e2 : list (KeyReference.t * ValueReference.t Any)) :
  e1 ≡ₚ e2 → low.extension_lines e1 ≡ₚ low.extension_lines e2.
Proof. intros Hp. unfold low.extension_lines. by rewrite Hp. Qed.

(** The lines hashed by [Paths.Hash] depend neither on the order of the
    path items, when their decoded keys are pairwise distinct, nor on the
    order in which the extensions are visited. *)
Lemma Paths_Hash_lines_Permutation (p1 p2 : v3.Paths) :
  orderedmap.wf (orderedmap.pairs (v3.PathItems p1)) →
  orderedmap.pairs (v3.PathItems p1) ≡ₚ orderedmap.pairs (v3.PathItems p2) →
  v3.Extensions p1 ≡ₚ v3.Extensions p2 →
  v3.Hash_lines p1 = v3.Hash_lines p2.
Proof.
  intros Hwf Hitems Hext. unfold v3.Hash_lines.
  rewrite (sort_Strings_Permutation _ _ (keys_Permutation _ _ Hitems)).
  rewrite (sort_Strings_Permutation _ _ (extension_lines_Permutation _ _ Hext)).
  rewrite (assign_all_Permutation
             ((λ e, (KeyReference.Value e.1, e.2)) <$> orderedmap.pairs (v3.PathItems p1))
             ((λ e, (KeyReference.Value e.1, e.2)) <$> orderedmap.pairs (v3.PathItems p2))).
  - reflexivity.
  - by rewrite <-list_fmap_compose.
  - by rewrite Hitems.
Qed.

Lemma Responses_Hash_lines_Permutation (r1 r2 : v2.Responses) :
  orderedmap.wf (orderedmap.pairs (v2.Codes r1)) →
  orderedmap.pairs (v2.Codes r1) ≡ₚ orderedmap.pairs (v2.Codes r2) →
  v2.Default r1 = v2.Default r2 →
  v2.Extensions r1 ≡ₚ v2.Extensions r2 →
  v2.Hash_lines r1 = v2.Hash_lines r2.
Proof.
  intros Hwf Hitems Hdef Hext. unfold v2.Hash_lines.
  rewrite (sort_Strings_Permutation _ _ (keys_Permutation _ _ Hitems)).
  rewrite (sort_Strings_Permutation _ _ (extension_lines_Permutation _ _ Hext)).
  rewrite (assign_all_Permutation
             ((λ e, (KeyReference.Value e.1, ValueReference.Value e.2))
                <$> orderedmap.pairs (v2.Codes r1))
             ((λ e, (KeyReference.Value e.1, ValueReference.Value e.2))
                <$> orderedmap.pairs (v2.Codes r2))).
  - by rewrite Hdef.
  - by rewrite <-list_fmap_compose.
  - by rewrite Hitems.
Qed.

(** C5. Permuting the entries of the child map of a [Paths] or of a
    [Responses] (the same decoded keys, pairwise distinct as in every
    ordered map, with the same children, in another insertion order)
    leaves [Hash] unchanged. *)
Theorem Hash_insertion_order_independent :
  (∀ items items' exts ref,
     orderedmap.wf items → items ≡ₚ items' →
     v3.Hash (v3.mkPaths (Some items) exts ref)
     = v3.Hash (v3.mkPaths (Some items') exts ref))
  ∧ (∀ codes codes' def exts,
     orderedmap.wf codes → codes ≡ₚ codes' →
     v2.Hash (v2.mkResponses (Some codes) def exts)
     = v2.Hash (v2.mkResponses (Some codes') def exts)).
Proof.
  split.
  - intros items items' exts ref Hwf Hperm. unfold v3.Hash.
    by rewrite (Paths_Hash_lines_Permutation _ (v3.mkPaths (Some items') exts ref)).
  - intros codes codes' def exts Hwf Hperm. unfold v2.Hash.
    by rewrite (Responses_Hash_lines_Permutation _
                  (v2.mkResponses (Some codes') def exts)).
Qed.

(** C9. Two objects that hold the same children (the same entries with
    pairwise distinct decoded keys, whatever their insertion order), the
    same default entry and the same extensions (whatever the order in
    which the native map is visited) have the same digest, and the digest
    has 32 bytes. *)
Theorem Hash_deterministic :
  (∀ p1 p2 : v3.Paths,
     orderedmap.wf (orderedmap.pairs (v3.PathItems p1)) →
     orderedmap.pairs (v3.PathItems p1) ≡ₚ orderedmap.pairs (v3.PathItems p2) →
     v3.Extensions p1 ≡ₚ v3.Extensions p2 →
     v3.Hash p1 = v3.Hash p2 ∧ length (v3.Hash p1) = 32%nat)
  ∧ (∀ r1 r2 : v2.Responses,
     orderedmap.wf (orderedmap.pairs (v2.Codes r1)) →
     orderedmap.pairs (v2.Codes r1) ≡ₚ orderedmap.pairs (v2.Codes r2) →
     v2.Default r1 = v2.Default r2 →
     v2.Extensions r1 ≡ₚ v2.Extensions r2 →
     v2.Hash r1 = v2.Hash r2 ∧ length (v2.Hash r1) = 32%nat).
Proof.
  split.
  - intros p1 p2 Hwf Hitems Hext. split; [|apply Sum256_length].
    unfold v3.Hash. by rewrite (Paths_Hash_lines_Permutation p1 p2).
  - intros r1 r2 Hwf Hitems Hdef Hext. split; [|apply Sum256_length].
    unfold v2.Hash. by rewrite (Responses_Hash_lines_Permutation r1 r2).
Qed.

End Hash.


Lemma Hash_insertion_order_independent_witness :
  v3.Hash spec_model.paths_ab = v3.Hash spec_model.paths_ba
  ∧ v2.Hash spec_model.responses_ab = v2.Hash spec_model.responses_ba.
Proof.
  split.
  - apply (proj1 (@Hash_insertion_order_independent spec_model.externals)
             spec_model.items_ab spec_model.items_ba spec_model.exts_1 None).
    + apply (bool_decide_unpack (NoDup (orderedmap.keys spec_model.items_ab))).
      vm_compute. exact I.
    + apply perm_swap.
  - apply (proj2 (@Hash_insertion_order_independent spec_model.externals)
             spec_model.items_ab spec_model.items_ba
             spec_model.no_default spec_model.exts_1).
    + apply (bool_decide_unpack (NoDup (orderedmap.keys spec_model.items_ab))).
      vm_compute. exact I.
    + apply perm_swap.
Defined.

Lemma Hash_deterministic_witness :
  (v3.Hash spec_model.paths_ab = v3.Hash spec_model.paths_ba'
   ∧ length (v3.Hash spec_model.paths_ab) = 32%nat)
  ∧ (v2.Hash spec_model.responses_ab = v2.Hash spec_model.responses_ba'
     ∧ length (v2.Hash spec_model.responses_ab) = 32%nat).
Proof.
  split.
  - apply (proj1 (@Hash_deterministic spec_model.externals)
             spec_model.paths_ab spec_model.paths_ba').
    + apply (bool_decide_unpack (NoDup (orderedmap.keys spec_model.items_ab))).
      vm_compute. exact I.
    + apply perm_swap.
    + apply perm_swap.
  - apply (proj2 (@Hash_deterministic spec_model.externals)
             spec_model.responses_ab spec_model.responses_ba').
    + apply (bool_decide_unpack (NoDup (orderedmap.keys spec_model.items_ab))).
      vm_compute. exact I.
    + apply perm_swap.
    + reflexivity.
    + apply perm_swap.
Defined.

(** ** Lookup accessors *)
Section Lookup.
Context `{Externals}.

(** The scan shared by [FindPath] and [FindResponseByCode]: the value of
    the first pair whose decoded key is the query. *)
Lemma FindPath_pairs_Some {V} (path : string)
    (l : list (KeyReference.t * V)) (v : V) :
  v3.FindPath_pairs path l = Some v ↔
  ∃ l1 k l2, l = l1 ++ (k, v) :: l2 ∧ KeyReference.Value k = path ∧
             path ∉ orderedmap.keys l1.
Proof.
  induction l as [|[k' v'] l IH]; simpl.
  - split; [done|]. intros (l1 & k & l2 & Hl & _). by destruct l1.
  - destruct (String.eqb_spec (KeyReference.Value k') path) as [Heq|Hne].
    + split.
      * intros [= ->]. exists [], k', l. split_and!; [done|done|set_solver].
      * intros ([|[k1 v1] l1] & k & l2 & Hl & Hk & Hnot); simplify_eq/=; [done|].
        set_solver.
    + rewrite IH. split.
      * intros (l1 & k & l2 & -> & Hk & Hnot).
        exists ((k', v') :: l1), k, l2. split_and!; [done|done|].
        unfold orderedmap.keys in *. set_solver.
      * intros ([|[k1 v1] l1] & k & l2 & Hl & Hk & Hnot); simplify_eq/=.
        exists l1, k, l2. split_and!; [done|done|].
        unfold orderedmap.keys in *. set_solver.
Qed.

Lemma FindPath_pairs_None {V} (path : string)
    (l : list (KeyReference.t * V)) :
  v3.FindPath_pairs path l = None ↔ path ∉ orderedmap.keys l.
Proof.
  induction l as [|[k' v'] l IH]; simpl.
  - split; [|done]. intros _. unfold orderedmap.keys. set_solver.
  - destruct (String.eqb_spec (KeyReference.Value k') path) as [Heq|Hne].
    + split; [done|]. unfold orderedmap.keys. set_solver.
    + rewrite IH. unfold orderedmap.keys. set_solver.
Qed.

Lemma FindItemInOrderedMap_pairs_FindPath_pairs {V} (item : string)
    (l : list (KeyReference.t * V)) :
  low.FindItemInOrderedMap_pairs item l = v3.FindPath_pairs item l.
Proof. induction l as [|[k v] l IH]; simpl; [done|]. by rewrite IH. Qed.

(** C10. [FindPath] and [FindResponseByCode] return the value of the
    first entry, in insertion order, whose decoded key is the query
    string itself, and nothing when no decoded key is that string: a key
    that equals the query only after lower-casing is not found. *)
Theorem Find_exact_first_match :
  (∀ (p : v3.Paths) (path : string),
     (∀ v, v3.FindPath p path = Some v ↔
           ∃ l1 k l2, orderedmap.pairs (v3.PathItems p) = l1 ++ (k, v) :: l2 ∧
                      KeyReference.Value k = path ∧
                      path ∉ orderedmap.keys l1)
     ∧ (v3.FindPath p path = None ↔
        path ∉ orderedmap.keys (orderedmap.pairs (v3.PathItems p)))
     ∧ ((∀ k, k ∈ orderedmap.keys (orderedmap.pairs (v3.PathItems p)) →
              strings.ToLower k = strings.ToLower path ∧ k ≠ path) →
        v3.FindPath p path = None))
  ∧ (∀ (r : v2.Responses) (code : string),
     (∀ v, v2.FindResponseByCode r code = Some v ↔
           ∃ l1 k l2, orderedmap.pairs (v2.Codes r) = l1 ++ (k, v) :: l2 ∧
                      KeyReference.Value k = code ∧
                      code ∉ orderedmap.keys l1)
     ∧ (v2.FindResponseByCode r code = None ↔
        code ∉ orderedmap.keys (orderedmap.pairs (v2.Codes r)))
     ∧ ((∀ k, k ∈ orderedmap.keys (orderedmap.pairs (v2.Codes r)) →
              strings.ToLower k = strings.ToLower code ∧ k ≠ code) →
        v2.FindResponseByCode r code = None)).
Proof.
  split.
  - intros p path. unfold v3.FindPath. split_and!.
    + intros v. apply FindPath_pairs_Some.
    + apply FindPath_pairs_None.
    + intros Hcase. apply FindPath_pairs_None. intros Hin.
      by destruct (Hcase _ Hin).
  - intros r code. unfold v2.FindResponseByCode, low.FindItemInOrderedMap.
    rewrite FindItemInOrderedMap_pairs_FindPath_pairs. split_and!.
    + intros v. apply FindPath_pairs_Some.
    + apply FindPath_pairs_None.
    + intros Hcase. apply FindPath_pairs_None. intros Hin.
      by destruct (Hcase _ Hin).
Qed.

End Lookup.

(** [/pets] is not found in [{/Pets: {}}], nor [default] in
    [{Default: {}}]; the keys as written are. *)
Lemma Find_exact_first_match_witness :
  (v3.FindPath spec_model.paths_Pets "/pets" = None
   ∧ v3.FindPath spec_model.paths_Pets "/Pets"
     = Some (spec_model.entry spec_model.key_Pets (spec_model.mapping [] 1 8)).2)
  ∧ (v2.FindResponseByCode spec_model.responses_Default "default" = None
     ∧ v2.FindResponseByCode spec_model.responses_Default "Default"
       = Some (spec_model.entry spec_model.key_Default
                 (spec_model.mapping [] 2 10)).2).
Proof.
  destruct (@Find_exact_first_match spec_model.externals) as [HP HR].
  split.
  - destruct (HP spec_model.paths_Pets "/pets") as (_ & _ & Hcase).
    destruct (HP spec_model.paths_Pets "/Pets") as (Hsome & _ & _).
    split.
    + apply Hcase. intros k Hk. vm_compute in Hk.
      apply list_elem_of_singleton in Hk as ->. split; [reflexivity|discriminate].
    + apply Hsome. exists [], (spec_model.entry spec_model.key_Pets
                               (spec_model.mapping [] 1 8)).1, [].
      split_and!; [reflexivity|reflexivity|apply not_elem_of_nil].
  - destruct (HR spec_model.responses_Default "default") as (_ & _ & Hcase).
    destruct (HR spec_model.responses_Default "Default") as (Hsome & _ & _).
    split.
    + apply Hcase. intros k Hk. vm_compute in Hk.
      apply list_elem_of_singleton in Hk as ->. split; [reflexivity|discriminate].
    + apply Hsome. exists [], (spec_model.entry spec_model.key_Default
                               (spec_model.mapping [] 2 10)).1, [].
      split_and!; [reflexivity|reflexivity|apply not_elem_of_nil].
Defined.

(** ** The producer of [Paths.Build] *)

Lemma producer_from_cons (i : nat) (skip : bool) (current : option yaml.Node)
    (n : yaml.Node) (rest : list yaml.Node) :
  v3.producer_from i skip current (n :: rest)
  = if v3.prefixed n then v3.producer_from (S i) true current rest
    else if skip then v3.producer_from (S i) false current rest
    else if Nat.even i then v3.producer_from (S i) false (Some n) rest
    else v3.mkInput current n :: v3.producer_from (S i) false current rest.
Proof. reflexivity. Qed.

Lemma producer_from_flat_content (kvs : list (yaml.Node * yaml.Node))
    (i : nat) (current : option yaml.Node) :
  Nat.even i = true →
  Forall (λ kv, v3.prefixed kv.2 = false) kvs →
  v3.producer_from i false current (v3.flat_content kvs)
  = (λ kv, v3.mkInput (Some kv.1) kv.2)
      <$> filter (λ kv, v3.prefixed kv.1 = false) kvs.
Proof.
  intros Hi Hvalues. revert i current Hi.
  induction Hvalues as [|[k v] kvs Hv _ IH]; intros i current Hi; [done|].
  assert (Nat.even (S (S i)) = true) as Hi2 by done.
  assert (Nat.even (S i) = false) as Hi1.
  { rewrite Nat.even_succ, <-Nat.negb_even. by rewrite Hi. }
  change (v3.flat_content ((k, v) :: kvs)) with (k :: v :: v3.flat_content kvs).
  rewrite !producer_from_cons, filter_cons. cbn [fst snd] in *. rewrite Hv.
  destruct (v3.prefixed k) eqn:Hk.
  - rewrite decide_False by done. by apply IH.
  - rewrite decide_True by done. rewrite Hi, Hi1. rewrite fmap_cons.
    f_equal. by apply IH.
Qed.

(** On a mapping none of whose values is a scalar that begins with the
    reserved prefix, the producer submits, in declaration order, exactly
    the pairs whose key does not begin with it, each with its own key. *)
Lemma producer_flat_content (kvs : list (yaml.Node * yaml.Node)) :
  Forall (λ kv, v3.prefixed kv.2 = false) kvs →
  v3.producer (v3.flat_content kvs)
  = (λ kv, v3.mkInput (Some kv.1) kv.2)
      <$> filter (λ kv, v3.prefixed kv.1 = false) kvs.
Proof. intros Hv. by apply producer_from_flat_content. Qed.

(** A pair of such a mapping whose key does not begin with the prefix is
    submitted with its own key. *)
Lemma producer_submits_pair (kvs : list (yaml.Node * yaml.Node))
    (k v : yaml.Node) :
  Forall (λ kv, v3.prefixed kv.2 = false) kvs →
  (k, v) ∈ kvs → v3.prefixed k = false →
  v3.mkInput (Some k) v ∈ v3.producer (v3.flat_content kvs).
Proof.
  intros Hvalues Hin Hk. rewrite producer_flat_content by done.
  apply list_elem_of_fmap. exists (k, v). split; [done|].
  by apply list_elem_of_filter.
Qed.

(** C1. The producer tests every node it visits, values as well as keys,
    against the reserved prefix. In [{/a: x-rated, /b: {}}] no key begins
    with the prefix, yet the pair of [/a] is not submitted and the value of
    [/b] is submitted under the key [/a]. *)
Theorem producer_tests_value_nodes :
  v3.prefixed spec_model.key_a = false
  ∧ v3.prefixed spec_model.key_b = false
  ∧ yaml.Content spec_model.prefixed_value_doc
    = v3.flat_content [(spec_model.key_a, spec_model.scalar "x-rated" 1 5);
                       (spec_model.key_b, spec_model.item_b)]
  ∧ v3.producer (yaml.Content spec_model.prefixed_value_doc)
    = [v3.mkInput (Some spec_model.key_a) spec_model.item_b].
Proof. split_and!; reflexivity. Qed.

(** ** [Responses.Build] *)
Section ResponsesBuild.
Context `{Externals}.

Lemma getDefault_pairs_Some
    (l : list (KeyReference.t * ValueReference.t (option Response)))
    (def : NodeReference.t (option Response)) :
  v2.getDefault_pairs l = Some def →
  ∃ k v, (k, v) ∈ l ∧
         strings.ToLower (KeyReference.Value k) = v2.DefaultLabel ∧
         def = NodeReference.mk (ValueReference.Value v)
                                (ValueReference.ValueNode v)
                                (KeyReference.KeyNode k).
Proof.
  induction l as [|[k v] l IH]; simpl; [done|].
  destruct (String.eqb_spec (strings.ToLower (KeyReference.Value k))
                            v2.DefaultLabel) as [Heq|Hne].
  - intros [= <-]. exists k, v. split_and!; [left|done|done].
  - intros (k' & v' & Hin & Hk & Hd)%IH. exists k', v'.
    split_and!; [by right|done|done].
Qed.

Lemma getDefault_pairs_is_Some
    (l : list (KeyReference.t * ValueReference.t (option Response)))
    (k : string) :
  k ∈ orderedmap.keys l → strings.ToLower k = v2.DefaultLabel →
  is_Some (v2.getDefault_pairs l).
Proof.
  unfold orderedmap.keys. intros ([k' v] & -> & Hin)%list_elem_of_fmap Hk.
  induction Hin as [[k1 v1] l|[k1 v1] [k2 v2] l Hin IH]; simpl in *.
  - apply String.eqb_eq in Hk. by rewrite Hk.
  - destruct (String.eqb _ v2.DefaultLabel); [done|by apply IH].
Qed.

Lemma deleteCode_key_None {V} (code : string) (l : list (KeyReference.t * V)) :
  v2.deleteCode_key code l = None ↔ code ∉ orderedmap.keys l.
Proof.
  unfold orderedmap.keys.
  induction l as [|[k v] l IH]; simpl; [set_solver|].
  destruct (String.eqb_spec (KeyReference.Value k) code); set_solver.
Qed.

Lemma deleteCode_key_Some {V} (code : string) (l : list (KeyReference.t * V))
    (k : KeyReference.t) :
  v2.deleteCode_key code l = Some k → KeyReference.Value k = code.
Proof.
  induction l as [|[k' v] l IH]; simpl; [done|].
  destruct (String.eqb_spec (KeyReference.Value k') code); [|done].
  by intros [= <-].
Qed.

Lemma Delete_keys {V} (m : orderedmap.Map V) (k : KeyReference.t) (s : string) :
  s ∈ orderedmap.keys (orderedmap.Delete m k) ↔
  s ∈ orderedmap.keys m ∧ s ≠ KeyReference.Value k.
Proof.
  unfold orderedmap.keys, orderedmap.Delete, orderedmap.same_key.
  rewrite !list_elem_of_fmap. split.
  - intros ([k' v] & -> & [Hne Hin]%list_elem_of_filter). simpl in *.
    apply String.eqb_neq in Hne. split; [|done]. by exists (k', v).
  - intros [([k' v] & -> & Hin) Hne]. exists (k', v). split; [done|].
    apply list_elem_of_filter. split; [|done]. by apply String.eqb_neq.
Qed.

(** A root that is not a mapping: the error names its line and column,
    and only the extensions of the receiver change. *)
Lemma Responses_Build_not_a_mapping (r : v2.Responses) (root : yaml.Node)
    (idx : index.SpecIndex) :
  utils.IsNodeMap (low.prepared root) = false →
  v2.Build r root idx
  = (v2.mkResponses (v2.Codes r) (v2.Default r)
                    (ExtractExtensions (low.prepared root)),
     Some ("responses build failed: vn node is not a map! line " +:+
           fmt.dec (yaml.Line (low.prepared root)) +:+ ", col " +:+
           fmt.dec (yaml.Column (low.prepared root)))).
Proof. intros Hmap. unfold v2.Build. by rewrite Hmap. Qed.

(** The error of the map decoder is the result of [Build]: neither the
    codes nor the default entry are touched. *)
Lemma Responses_Build_decoder_error (r : v2.Responses) (root : yaml.Node)
    (idx : index.SpecIndex) codes (e : string) :
  utils.IsNodeMap (low.prepared root) = true →
  ExtractMapNoLookup (low.prepared root) idx = (codes, Some e) →
  v2.Build r root idx
  = (v2.mkResponses (v2.Codes r) (v2.Default r)
                    (ExtractExtensions (low.prepared root)),
     Some e).
Proof. intros Hmap Hdec. unfold v2.Build. by rewrite Hmap, Hdec. Qed.

(** When the reserved key is written ["default"], [Build] moves it out of
    the codes into the default entry. *)
Lemma Responses_Build_default_moved (r : v2.Responses) (root : yaml.Node)
    (idx : index.SpecIndex) codes :
  utils.IsNodeMap (low.prepared root) = true →
  ExtractMapNoLookup (low.prepared root) idx = (Some codes, None) →
  v2.DefaultLabel ∈ orderedmap.keys codes →
  (∀ k, k ∈ orderedmap.keys codes →
        strings.ToLower k = v2.DefaultLabel → k = v2.DefaultLabel) →
  ∃ r', v2.Build r root idx = (r', None)
        ∧ v2.FindResponseByCode r' v2.DefaultLabel = None
        ∧ (∀ k, k ∈ orderedmap.keys (orderedmap.pairs (v2.Codes r')) ↔
                k ∈ orderedmap.keys codes ∧ k ≠ v2.DefaultLabel)
        ∧ (∃ k v, (k, v) ∈ codes ∧ KeyReference.Value k = v2.DefaultLabel ∧
                  v2.Default r' = NodeReference.mk (ValueReference.Value v)
                                    (ValueReference.ValueNode v)
                                    (KeyReference.KeyNode k))
        ∧ v2.Extensions r' = ExtractExtensions (low.prepared root).
Proof.
  intros Hmap Hdec Hin Hcase. unfold v2.Build. rewrite Hmap, Hdec.
  unfold v2.getDefault. simpl.
  destruct (getDefault_pairs_is_Some codes v2.DefaultLabel Hin eq_refl)
    as [def Hdef].
  rewrite Hdef. unfold v2.deleteCode. simpl.
  destruct (v2.deleteCode_key v2.DefaultLabel codes) as [key|] eqn:Hkey.
  2:{ by apply deleteCode_key_None in Hkey. }
  apply deleteCode_key_Some in Hkey.
  eexists. split; [done|]. simpl.
  assert (∀ k, k ∈ orderedmap.keys (orderedmap.Delete codes key) ↔
               k ∈ orderedmap.keys codes ∧ k ≠ v2.DefaultLabel) as Hkeys.
  { intros k. by rewrite Delete_keys, Hkey. }
  split_and!; [|done| |done].
  - unfold v2.FindResponseByCode, low.FindItemInOrderedMap. simpl.
    rewrite FindItemInOrderedMap_pairs_FindPath_pairs.
    apply FindPath_pairs_None. rewrite Hkeys. by intros [_ ?].
  - apply getDefault_pairs_Some in Hdef as (k & v & Hkv & Hk & ->).
    exists k, v. split_and!; [done| |done].
    apply Hcase; [|done]. unfold orderedmap.keys.
    apply list_elem_of_fmap. by exists (k, v).
Qed.

(** When the reserved key is written in another case, it is copied into
    the default entry and stays in the codes. *)
Lemma Responses_Build_default_copied (r : v2.Responses) (root : yaml.Node)
    (idx : index.SpecIndex) codes (k : string) :
  utils.IsNodeMap (low.prepared root) = true →
  ExtractMapNoLookup (low.prepared root) idx = (Some codes, None) →
  k ∈ orderedmap.keys codes → strings.ToLower k = v2.DefaultLabel →
  v2.DefaultLabel ∉ orderedmap.keys codes →
  ∃ def, v2.getDefault_pairs codes = Some def
         ∧ v2.Build r root idx
           = (v2.mkResponses (Some codes) def
                             (ExtractExtensions (low.prepared root)), None).
Proof.
  intros Hmap Hdec Hin Hk Hnot. unfold v2.Build. rewrite Hmap, Hdec.
  unfold v2.getDefault. simpl.
  destruct (getDefault_pairs_is_Some codes k Hin Hk) as [def Hdef].
  exists def. split; [done|]. rewrite Hdef. unfold v2.deleteCode. simpl.
  apply deleteCode_key_None in Hnot. by rewrite Hnot.
Qed.

End ResponsesBuild.

(** [{"200": {}, default: {}, x-bar: 1}]: the default entry leaves the
    codes. *)
Example Responses_Build_default_doc :
  v2.Build spec_model.empty_responses spec_model.default_doc
           spec_model.strict_index
  = (v2.mkResponses
       (Some [spec_model.entry spec_model.key_200 (spec_model.mapping [] 1 6)])
       (NodeReference.mk (Some (spec_model.mapping [] 2 10))
                         (Some (spec_model.mapping [] 2 10))
                         (Some spec_model.key_default))
       [(KeyReference.mk "x-bar" (Some (spec_model.scalar "x-bar" 3 1)),
         ValueReference.mk "1" (Some (spec_model.scalar "1" 3 8)))],
     None).
Proof. reflexivity. Qed.

(** C2. [getDefault] finds the reserved key whatever its case, but
    [deleteCode] removes only the key spelled ["default"]. For
    [{"200": {}, Default: {}, x-bar: 1}], [Build] succeeds and fills the
    default entry, and the key [Default] is still among the codes, where
    [FindResponseByCode] finds it. *)
Theorem Responses_Build_keeps_capital_Default :
  strings.ToLower "Default" = v2.DefaultLabel
  ∧ v2.Build spec_model.empty_responses spec_model.capital_default_doc
             spec_model.strict_index
    = (v2.mkResponses
         (Some [spec_model.entry spec_model.key_200 (spec_model.mapping [] 1 6);
                spec_model.entry spec_model.key_Default
                                 (spec_model.mapping [] 2 10)])
         (NodeReference.mk (Some (spec_model.mapping [] 2 10))
                           (Some (spec_model.mapping [] 2 10))
                           (Some spec_model.key_Default))
         [(KeyReference.mk "x-bar" (Some (spec_model.scalar "x-bar" 3 1)),
           ValueReference.mk "1" (Some (spec_model.scalar "1" 3 8)))],
       None)
  ∧ v2.FindResponseByCode
      (v2.Build spec_model.empty_responses spec_model.capital_default_doc
                spec_model.strict_index).1 "Default"
    = Some (spec_model.entry spec_model.key_Default
                             (spec_model.mapping [] 2 10)).2.
Proof. split_and!; reflexivity. Qed.

(** ** The ordered map filled by [Paths.Build] *)

Lemma same_key_true (k1 k2 : KeyReference.t) :
  orderedmap.same_key k1 k2 = true ↔ KeyReference.Value k1 = KeyReference.Value k2.
Proof. apply String.eqb_eq. Qed.

Lemma Set_keys_eq {V} (m : orderedmap.Map V) (k : KeyReference.t) (v : V) :
  orderedmap.keys (orderedmap.Set_ m k v)
  = if decide (KeyReference.Value k ∈ orderedmap.keys m)
    then orderedmap.keys m
    else orderedmap.keys m ++ [KeyReference.Value k].
Proof.
  unfold orderedmap.keys. induction m as [|[k' v'] m IH].
  - case_decide as Hin; [by apply elem_of_nil in Hin|done].
  - cbn [orderedmap.Set_]. destruct (orderedmap.same_key k' k) eqn:Hsame.
    + apply same_key_true in Hsame. clear IH.
      case_decide as Hin; [done|]. destruct Hin.
      rewrite fmap_cons. cbn [fst]. rewrite Hsame. left.
    + assert (KeyReference.Value k' ≠ KeyReference.Value k) as Hne.
      { intros Heq%same_key_true. congruence. }
      rewrite !fmap_cons, IH. cbn [fst]. clear IH.
      repeat case_decide; set_solver.
Qed.

Lemma Set_keys {V} (m : orderedmap.Map V) (k : KeyReference.t) (v : V) (s : string) :
  s ∈ orderedmap.keys (orderedmap.Set_ m k v) ↔
  s ∈ orderedmap.keys m ∨ s = KeyReference.Value k.
Proof. rewrite Set_keys_eq. case_decide; set_solver. Qed.

(** [Set] keeps the decoded keys unique. *)
Lemma Set_wf {V} (m : orderedmap.Map V) (k : KeyReference.t) (v : V) :
  orderedmap.wf m → orderedmap.wf (orderedmap.Set_ m k v).
Proof.
  unfold orderedmap.wf. rewrite Set_keys_eq. case_decide; [done|].
  intros Hnd. apply NoDup_app. split_and!; [done| |apply NoDup_singleton].
  set_solver.
Qed.

Section PathsBuild.
Context `{Externals}.

Lemma collect_from (outs : list v3.buildResult)
    (m : orderedmap.Map (ValueReference.t (option PathItem))) :
  let m' := fold_left (λ m res, orderedmap.Set_ m (v3.key res) (v3.value res))
                      outs m in
  (orderedmap.wf m → orderedmap.wf m')
  ∧ ∀ s, s ∈ orderedmap.keys m' ↔
         s ∈ orderedmap.keys m
         ∨ ∃ res, res ∈ outs ∧ s = KeyReference.Value (v3.key res).
Proof.
  revert m. induction outs as [|res outs IH]; intros m; simpl.
  - split; [done|]. intros s. split; [by left|].
    intros [?|(res & Hin & _)]; [done|]. by apply elem_of_nil in Hin.
  - destruct (IH (orderedmap.Set_ m (v3.key res) (v3.value res))) as [Hwf Hkeys].
    split; [intros; by apply Hwf, Set_wf|].
    intros s. rewrite Hkeys, Set_keys. split.
    + intros [[Hs|Hs]|(res' & Hin & Hs)]; [by left|right..].
      * exists res. split; [left|done].
      * exists res'. split; [by right|done].
    + intros [Hs|(res' & [Heq|Hin]%elem_of_cons & Hs)].
      * by left; left.
      * subst res'. by left; right.
      * right. by exists res'.
Qed.

(** The map gathered by the consumer has unique decoded keys, namely the
    keys of the results it received. *)
Lemma collect_spec (outs : list v3.buildResult) :
  orderedmap.wf (v3.collect outs)
  ∧ ∀ s, s ∈ orderedmap.keys (v3.collect outs) ↔
         ∃ res, res ∈ outs ∧ s = KeyReference.Value (v3.key res).
Proof.
  destruct (collect_from outs orderedmap.New) as [Hwf Hkeys]. split.
  - apply Hwf, NoDup_nil_2.
  - intros s. unfold v3.collect. rewrite Hkeys. split; [|by right].
    intros [Hin|?]; [|done]. by apply elem_of_nil in Hin.
Qed.

(** *** The translate function *)

Lemma translate_unresolvable (idx : index.SpecIndex) c (pn n : yaml.Node) :
  IsNodeRefValue pn = true →
  (low.LocateRefNode pn idx).1 = None →
  yaml.Content pn !! 1%nat = Some n →
  v3.translate idx (v3.mkInput c pn)
  = Some ([], inr ("path item build failed: cannot find reference: " +:+
                   yaml.Value n +:+ " at line " +:+ fmt.dec (yaml.Line n) +:+
                   ", col " +:+ fmt.dec (yaml.Column n))).
Proof.
  intros Href Hloc Hn. unfold v3.translate. simpl. rewrite Href.
  destruct (low.LocateRefNode pn idx) as [r err]. simpl in Hloc. subst r.
  by rewrite Hn.
Qed.

Lemma translate_circular_rejected (idx : index.SpecIndex) c
    (pn r : yaml.Node) (cerr : string) :
  IsNodeRefValue pn = true →
  low.LocateRefNode pn idx = (Some r, Some cerr) →
  index.AllowCircularReferenceResolving idx = false →
  v3.translate idx (v3.mkInput c pn)
  = Some ([], inr ("path item build failed: " +:+ cerr)).
Proof.
  intros Href Hloc Hallow. unfold v3.translate. simpl.
  by rewrite Href, Hloc, Hallow.
Qed.

(** Once the reference is resolved, the path item is built and emitted,
    whether its [Build] fails or not; a failure is only logged. *)
Lemma translate_built (idx : index.SpecIndex) (cn pn pn' : yaml.Node)
    (path : PathItem) (err : option string) :
  v3.stands_for idx pn pn' →
  v3.failure idx (v3.mkInput (Some cn) pn) = None →
  BuildPathItem (Some cn) pn' idx = (path, err) →
  v3.translate idx (v3.mkInput (Some cn) pn)
  = Some (match err with
          | Some e => if index.HasLogger idx then [v3.error_line e] else []
          | None => []
          end,
          inl (v3.mkResult (KeyReference.mk (yaml.Value cn) (Some cn))
                           (ValueReference.mk (Some path) (Some pn')))).
Proof.
  unfold v3.failure, v3.translate, v3.error_line, v3.stands_for. simpl.
  intros [[Hnref ->]|[Href [e Hloc]]] Hfail Hbuild.
  - rewrite Hnref in *. by rewrite Hbuild.
  - rewrite Href, Hloc in *. destruct e as [e|].
    + destruct (index.AllowCircularReferenceResolving idx); simpl in *;
        [by rewrite Hbuild|done].
    + by rewrite Hbuild.
Qed.

(** A result carries the key node of its input. *)
Lemma translate_result_key (idx : index.SpecIndex) (j : v3.buildInput)
    (lg : list string) (res : v3.buildResult) :
  v3.translate idx j = Some (lg, inl res) →
  ∃ cn, v3.currentNode j = Some cn
        ∧ v3.key res = KeyReference.mk (yaml.Value cn) (Some cn).
Proof.
  unfold v3.translate. destruct j as [c pn]. simpl.
  destruct (if IsNodeRefValue pn then _ else _) as [[pn'|e]|]; [|done..].
  destruct (BuildPathItem c pn' idx) as [path err].
  destruct c as [cn|]; [|done]. simpl. intros [= _ <-]. by exists cn.
Qed.

(** With circular references allowed, only a reference that is not
    located makes the translate function fail. *)
Lemma translate_lenient (idx : index.SpecIndex) (j : v3.buildInput) :
  index.AllowCircularReferenceResolving idx = true →
  (IsNodeRefValue (v3.pathNode j) = true →
   (low.LocateRefNode (v3.pathNode j) idx).1 ≠ None) →
  v3.failure idx j = None.
Proof.
  intros Hallow Hloc. unfold v3.failure, v3.translate.
  destruct j as [c pn]. simpl in *.
  destruct (IsNodeRefValue pn).
  - destruct (low.LocateRefNode pn idx) as [[r|] [e|]]; simpl in *;
      [rewrite Hallow; simpl| |by destruct Hloc..];
      destruct (BuildPathItem c r idx) as [path e0]; by destruct c.
  - destruct (BuildPathItem c pn idx) as [path e0]. by destruct c.
Qed.
End PathsBuild.

(** ** The runs of the pipeline *)
Section PathsBuildRuns.
Context `{Externals}.

(** Unless a job panics, the pipeline ends. *)
Lemma run_no_panic (idx : index.SpecIndex) (js : list v3.buildInput) :
  Forall (λ j, v3.panics idx j = false) js → is_Some (v3.run idx js).
Proof.
  induction 1 as [|j js Hj _ IH]; simpl; [done|]. unfold v3.panics in Hj.
  destruct (v3.translate idx j) as [[lg [res|e]]|]; [|done..].
  destruct IH as [[[outs lg'] err] ->]. done.
Qed.

(** The error of the pipeline is the failure of one of its jobs. *)
Lemma run_error (idx : index.SpecIndex) (js : list v3.buildInput)
    outs lg (e : string) :
  v3.run idx js = Some (outs, lg, Some e) →
  ∃ j, j ∈ js ∧ v3.failure idx j = Some e.
Proof.
  revert outs lg. induction js as [|j js IH]; intros outs lg; simpl; [done|].
  destruct (v3.translate idx j) as [[lg1 [res|e1]]|] eqn:Ht; [| |done].
  - destruct (v3.run idx js) as [[[o l] er]|]; simpl; [|done].
    intros [= <- <- ->]. destruct (IH _ _ eq_refl) as (j' & Hin & Hf).
    exists j'. split; [by right|done].
  - intros [= <- <- <-]. exists j. split; [left|].
    unfold v3.failure. by rewrite Ht.
Qed.

(** When the pipeline ends without error, every job gave a result, the
    results were emitted in completion order, and what the jobs logged is
    in the log. *)
Lemma run_success (idx : index.SpecIndex) (js : list v3.buildInput) outs lg :
  v3.run idx js = Some (outs, lg, None) →
  Forall2 (λ j res, ∃ lg', v3.translate idx j = Some (lg', inl res) ∧ lg' ⊆ lg)
          js outs.
Proof.
  revert outs lg. induction js as [|j js IH]; intros outs lg; simpl.
  - intros [= <- <-]. constructor.
  - destruct (v3.translate idx j) as [[lg1 [res|e1]]|] eqn:Ht; [|done..].
    destruct (v3.run idx js) as [[[o l] er]|]; simpl; [|done].
    intros [= <- <- ->]. constructor.
    + exists lg1. split; [done|]. intros x Hx. apply elem_of_app. by left.
    + eapply Forall2_impl; [by apply IH|]. simpl.
      intros j' res' (lg' & Ht' & Hsub). exists lg'. split; [done|].
      intros x Hx. apply elem_of_app. right. by apply Hsub.
Qed.

Lemma run_fails (idx : index.SpecIndex) (js : list v3.buildInput)
    (j0 : v3.buildInput) (e0 : string) :
  Forall (λ j, v3.panics idx j = false) js →
  j0 ∈ js → v3.failure idx j0 = Some e0 →
  ∃ outs lg e, v3.run idx js = Some (outs, lg, Some e)
               ∧ ∃ j, j ∈ js ∧ v3.failure idx j = Some e.
Proof.
  intros Hnp Hin Hf. destruct (run_no_panic idx js Hnp) as [[[outs lg] [e|]] Hrun].
  - exists outs, lg, e. split; [done|]. by eapply run_error.
  - apply run_success in Hrun.
    apply list_elem_of_lookup in Hin as [i Hi].
    destruct (Forall2_lookup_l _ _ _ _ _ Hrun Hi) as (res & _ & lg' & Ht & _).
    unfold v3.failure in Hf. by rewrite Ht in Hf.
Qed.

Lemma run_succeeds (idx : index.SpecIndex) (js : list v3.buildInput) :
  Forall (λ j, v3.panics idx j = false ∧ v3.failure idx j = None) js →
  ∃ outs lg, v3.run idx js = Some (outs, lg, None).
Proof.
  intros Hall.
  destruct (run_no_panic idx js) as [[[outs lg] [e|]] Hrun].
  { eapply Forall_impl; [done|]. by intros j [? _]. }
  - apply run_error in Hrun as (j & Hin & Hf).
    rewrite Forall_forall in Hall. destruct (Hall j Hin) as [_ Hnone].
    congruence.
  - by exists outs, lg.
Qed.

Lemma Build_inv (p : v3.Paths) (root : yaml.Node) (idx : index.SpecIndex) out :
  v3.Build p root idx out →
  ∃ completion, v3.submitted root ≡ₚ completion
                ∧ out = v3.Build_in completion p root idx.
Proof. intros [completion Hperm]. by exists completion. Qed.

(** [Build] has an outcome, whatever the completion order. *)
Lemma Build_total (p : v3.Paths) (root : yaml.Node) (idx : index.SpecIndex) :
  ∃ out, v3.Build p root idx out.
Proof. eexists. by apply (v3.Build_completes p root idx (v3.submitted root)). Qed.

(** If no job panics and one fails, [Build] returns the failure of a job
    and does not install the map. *)
Lemma Build_fails (p : v3.Paths) (root : yaml.Node) (idx : index.SpecIndex)
    (j0 : v3.buildInput) (e0 : string) out :
  Forall (λ j, v3.panics idx j = false) (v3.submitted root) →
  j0 ∈ v3.submitted root → v3.failure idx j0 = Some e0 →
  v3.Build p root idx out →
  ∃ p' lg e, out = Some (p', lg, Some e)
             ∧ v3.PathItems p' = v3.PathItems p
             ∧ ∃ j, j ∈ v3.submitted root ∧ v3.failure idx j = Some e.
Proof.
  intros Hnp Hin Hf (completion & Hperm & ->)%Build_inv.
  destruct (run_fails idx completion j0 e0) as (outs & lg & e & Hrun & j & Hj & Hfj).
  { by rewrite <-Hperm. } { by rewrite <-Hperm. } { done. }
  unfold v3.Build_in. rewrite Hrun. simpl.
  eexists _, lg, e. split_and!; [done|done|].
  exists j. by rewrite Hperm.
Qed.

(** If every job gives a result, [Build] returns no error and installs a
    map that holds exactly the keys of the submitted pairs. *)
Lemma Build_succeeds (p : v3.Paths) (root : yaml.Node) (idx : index.SpecIndex) out :
  Forall (λ j, v3.panics idx j = false ∧ v3.failure idx j = None)
         (v3.submitted root) →
  v3.Build p root idx out →
  ∃ p' lg m,
    out = Some (p', lg, None)
    ∧ v3.PathItems p' = Some m
    ∧ v3.Extensions p' = ExtractExtensions (low.prepared root)
    ∧ orderedmap.wf m
    ∧ (∀ s, s ∈ orderedmap.keys m ↔
            ∃ j cn, j ∈ v3.submitted root ∧ v3.currentNode j = Some cn
                    ∧ s = yaml.Value cn)
    ∧ (∀ j lg' res, j ∈ v3.submitted root →
                    v3.translate idx j = Some (lg', inl res) → lg' ⊆ lg).
Proof.
  intros Hall (completion & Hperm & ->)%Build_inv.
  destruct (run_succeeds idx completion) as (outs & lg & Hrun).
  { by rewrite <-Hperm. }
  pose proof (run_success _ _ _ _ Hrun) as Hres.
  unfold v3.Build_in. rewrite Hrun. simpl.
  destruct (collect_spec outs) as [Hwf Hkeys].
  eexists _, lg, (v3.collect outs). split_and!; [done..| |].
  - intros s. rewrite Hkeys. split.
    + intros (res & Hin & ->).
      apply list_elem_of_lookup in Hin as [i Hi].
      destruct (Forall2_lookup_r _ _ _ _ _ Hres Hi) as (j & Hj & lg' & Ht & _).
      destruct (translate_result_key _ _ _ _ Ht) as (cn & Hcn & ->).
      exists j, cn. split_and!; [|done..].
      rewrite Hperm. by eapply list_elem_of_lookup_2.
    + intros (j & cn & Hin & Hcn & ->). rewrite Hperm in Hin.
      apply list_elem_of_lookup in Hin as [i Hi].
      destruct (Forall2_lookup_l _ _ _ _ _ Hres Hi) as (res & Hr & lg' & Ht & _).
      destruct (translate_result_key _ _ _ _ Ht) as (cn' & Hcn' & Hkey).
      exists res. split; [by eapply list_elem_of_lookup_2|].
      rewrite Hkey. simpl. congruence.
  - intros j lg' res Hin Ht. rewrite Hperm in Hin.
    apply list_elem_of_lookup in Hin as [i Hi].
    destruct (Forall2_lookup_l _ _ _ _ _ Hres Hi) as (res' & _ & lg'' & Ht' & Hsub).
    rewrite Ht in Ht'. by injection Ht' as <- <-.
Qed.

End PathsBuildRuns.

(** ** Mappings on which no worker panics *)
Section PanicFreedom.
Context `{Externals}.

(** The translate function panics only on a pair without key node, or on
    a reference that is not located and has no second child. *)
Lemma translate_no_panic (idx : index.SpecIndex) (cn pn : yaml.Node) :
  (IsNodeRefValue pn = true → is_Some (yaml.Content pn !! 1%nat)) →
  v3.panics idx (v3.mkInput (Some cn) pn) = false.
Proof.
  intros Htext. unfold v3.panics, v3.translate. simpl.
  destruct (IsNodeRefValue pn).
  - destruct (low.LocateRefNode pn idx) as [[r|] [e|]]; simpl.
    + destruct (negb _); [done|]. by destruct (BuildPathItem _ r idx).
    + by destruct (BuildPathItem _ r idx).
    + by destruct (Htext eq_refl) as [n ->].
    + by destruct (Htext eq_refl) as [n ->].
  - by destruct (BuildPathItem _ pn idx).
Qed.

(** On a mapping none of whose values is a scalar that begins with the
    reserved prefix, and whose references have their two children, no
    worker panics. *)
Lemma submitted_no_panic (root : yaml.Node) (idx : index.SpecIndex)
    (kvs : list (yaml.Node * yaml.Node)) :
  yaml.Content (low.prepared root) = v3.flat_content kvs →
  Forall (λ kv, v3.prefixed kv.2 = false) kvs →
  Forall (λ kv, IsNodeRefValue kv.2 = true →
                is_Some (yaml.Content kv.2 !! 1%nat)) kvs →
  Forall (λ j, v3.panics idx j = false) (v3.submitted root).
Proof.
  intros Hcontent Hvalues Hrefs. unfold v3.submitted.
  rewrite Hcontent, producer_flat_content by done.
  apply Forall_fmap, Forall_forall. intros [k v] [_ Hin]%list_elem_of_filter.
  rewrite Forall_forall in Hrefs. simpl.
  apply translate_no_panic. by apply (Hrefs (k, v)).
Qed.

End PanicFreedom.

(** ** [Build] on malformed roots, failing children and references *)
Section BuildClaims.
Context `{Externals}.

Lemma FindPath_is_Some (p : v3.Paths) (s : string) :
  s ∈ orderedmap.keys (orderedmap.pairs (v3.PathItems p)) →
  is_Some (v3.FindPath p s).
Proof.
  intros Hin. unfold v3.FindPath.
  destruct (v3.FindPath_pairs s _) eqn:Hfind; [done|].
  by apply FindPath_pairs_None in Hfind.
Qed.

(** [Paths.Build] on a root without children: nothing is submitted, an
    empty map is installed and no error is returned, whatever the kind of
    the root. *)
Lemma Paths_Build_no_children (p : v3.Paths) (root : yaml.Node)
    (idx : index.SpecIndex) out :
  yaml.Content (low.prepared root) = [] →
  v3.Build p root idx out →
  out = Some (v3.mkPaths (Some []) (ExtractExtensions (low.prepared root))
                         (Some low.zeroReference), [], None).
Proof.
  intros Hcontent (completion & Hperm & ->)%Build_inv.
  unfold v3.submitted in Hperm. rewrite Hcontent in Hperm.
  apply Permutation_nil in Hperm. subst completion. reflexivity.
Qed.

(** A path item whose [Build] fails is emitted like any other: the
    failure is logged when there is a logger, [Build] returns no error, and
    every submitted key, the one of the failed item included, is found in
    the installed map. *)
Lemma Paths_Build_keeps_failed_child (p : v3.Paths) (root : yaml.Node)
    (idx : index.SpecIndex) (cn pn pn' : yaml.Node) (path : PathItem)
    (be : string) out :
  v3.mkInput (Some cn) pn ∈ v3.submitted root →
  v3.stands_for idx pn pn' →
  BuildPathItem (Some cn) pn' idx = (path, Some be) →
  Forall (λ j, v3.panics idx j = false ∧ v3.failure idx j = None)
         (v3.submitted root) →
  v3.Build p root idx out →
  ∃ p' lg, out = Some (p', lg, None)
           ∧ is_Some (v3.FindPath p' (yaml.Value cn))
           ∧ (index.HasLogger idx = true → v3.error_line be ∈ lg)
           ∧ (∀ j cn', j ∈ v3.submitted root → v3.currentNode j = Some cn' →
                       is_Some (v3.FindPath p' (yaml.Value cn'))).
Proof.
  intros Hin Hfor Hbuild Hall Hrun.
  destruct (Build_succeeds p root idx out Hall Hrun)
    as (p' & lg & m & -> & Hitems & _ & _ & Hkeys & Hlogs).
  assert (∀ j cn', j ∈ v3.submitted root → v3.currentNode j = Some cn' →
                   is_Some (v3.FindPath p' (yaml.Value cn'))) as Hfound.
  { intros j cn' Hj Hcn'. apply FindPath_is_Some. rewrite Hitems. simpl.
    apply Hkeys. by exists j, cn'. }
  exists p', lg. split_and!; [done| | |done].
  - by apply (Hfound _ cn Hin).
  - intros Hlogger.
    rewrite Forall_forall in Hall. destruct (Hall _ Hin) as [_ Hnofail].
    pose proof (translate_built idx cn pn pn' path (Some be) Hfor Hnofail Hbuild)
      as Ht.
    rewrite Hlogger in Ht. apply (Hlogs _ _ _ Hin Ht). left.
Qed.

(** C3. For a root that is not a mapping, [Responses.Build] returns an
    error that names the line and the column of the root. [Paths.Build]
    makes no test on the kind of its root: on a root that is not a
    mapping and has no children (a scalar), it returns no error and
    installs an empty map. *)
Theorem Build_root_not_a_mapping :
  (∀ (r : v2.Responses) (root : yaml.Node) (idx : index.SpecIndex),
     utils.IsNodeMap (low.prepared root) = false →
     v2.Build r root idx
     = (v2.mkResponses (v2.Codes r) (v2.Default r)
                       (ExtractExtensions (low.prepared root)),
        Some ("responses build failed: vn node is not a map! line " +:+
              fmt.dec (yaml.Line (low.prepared root)) +:+ ", col " +:+
              fmt.dec (yaml.Column (low.prepared root)))))
  ∧ (∀ (p : v3.Paths) (root : yaml.Node) (idx : index.SpecIndex) out,
     utils.IsNodeMap (low.prepared root) = false →
     yaml.Content (low.prepared root) = [] →
     v3.Build p root idx out →
     out = Some (v3.mkPaths (Some []) (ExtractExtensions (low.prepared root))
                            (Some low.zeroReference), [], None)).
Proof.
  split.
  - apply Responses_Build_not_a_mapping.
  - intros p root idx out _. apply Paths_Build_no_children.
Qed.

(** C6. When the value of a pair that [Paths.Build] submits to
    construction is a reference that the index does not locate, and no
    worker panics: the translate function fails on that pair with an error
    that carries the text, the line and the column of the second child of
    the reference (in [{$ref: text}], the node of the text); [Build] has
    an outcome, and every outcome is an error that leaves [PathItems]
    alone; the error is the failure of a submitted pair, and it is the
    error above when no other pair fails. *)
Theorem Paths_Build_unresolvable_reference (p : v3.Paths) (root : yaml.Node)
    (idx : index.SpecIndex) (c : option yaml.Node) (pn n : yaml.Node) :
  v3.mkInput c pn ∈ v3.submitted root →
  IsNodeRefValue pn = true →
  (low.LocateRefNode pn idx).1 = None →
  yaml.Content pn !! 1%nat = Some n →
  Forall (λ j, v3.panics idx j = false) (v3.submitted root) →
  let msg := "path item build failed: cannot find reference: " +:+
             yaml.Value n +:+ " at line " +:+ fmt.dec (yaml.Line n) +:+
             ", col " +:+ fmt.dec (yaml.Column n) in
  v3.translate idx (v3.mkInput c pn) = Some ([], inr msg)
  ∧ (∃ out, v3.Build p root idx out)
  ∧ ∀ out, v3.Build p root idx out →
      ∃ p' lg e,
        out = Some (p', lg, Some e)
        ∧ v3.PathItems p' = v3.PathItems p
        ∧ (∃ j, j ∈ v3.submitted root ∧ v3.failure idx j = Some e)
        ∧ (Forall (λ j, j = v3.mkInput c pn ∨ v3.failure idx j = None)
                  (v3.submitted root) → e = msg).
Proof.
  intros Hin Href Hloc Hn Hnp msg.
  pose proof (translate_unresolvable idx c pn n Href Hloc Hn) as Ht.
  fold msg in Ht.
  assert (v3.failure idx (v3.mkInput c pn) = Some msg) as Hfail.
  { unfold v3.failure. by rewrite Ht. }
  split_and!; [done|apply Build_total|].
  intros out Hrun.
  destruct (Build_fails p root idx _ msg out Hnp Hin Hfail Hrun)
    as (p' & lg & e & -> & Hitems & j & Hj & Hfj).
  exists p', lg, e. split_and!; [done|done|by exists j|].
  intros Honly. rewrite Forall_forall in Honly.
  destruct (Honly j Hj) as [->|Hnone]; congruence.
Qed.

(** C7. When the value of a pair that [Paths.Build] submits to
    construction is a reference that the index locates together with a
    circular-reference error, and no worker panics, [Build] has an
    outcome. If circular references are not allowed, the translate
    function fails on that pair with ["path item build failed: "] followed
    by the error of the index, every outcome of [Build] is an error that
    leaves [PathItems] alone, and it is that error when no other pair
    fails. If they are allowed, and every submitted reference is located,
    every outcome of [Build] is without error and the key of the circular
    entry is found in the installed map. *)
Theorem Paths_Build_circular_reference (p : v3.Paths) (root : yaml.Node)
    (idx : index.SpecIndex) (c : option yaml.Node) (pn r : yaml.Node)
    (cerr : string) :
  v3.mkInput c pn ∈ v3.submitted root →
  IsNodeRefValue pn = true →
  low.LocateRefNode pn idx = (Some r, Some cerr) →
  Forall (λ j, v3.panics idx j = false) (v3.submitted root) →
  (∃ out, v3.Build p root idx out)
  ∧ (index.AllowCircularReferenceResolving idx = false →
     v3.translate idx (v3.mkInput c pn)
     = Some ([], inr ("path item build failed: " +:+ cerr))
     ∧ ∀ out, v3.Build p root idx out →
         ∃ p' lg e,
           out = Some (p', lg, Some e)
           ∧ v3.PathItems p' = v3.PathItems p
           ∧ (∃ j, j ∈ v3.submitted root ∧ v3.failure idx j = Some e)
           ∧ (Forall (λ j, j = v3.mkInput c pn ∨ v3.failure idx j = None)
                     (v3.submitted root) →
              e = "path item build failed: " +:+ cerr))
  ∧ (index.AllowCircularReferenceResolving idx = true →
     Forall (λ j, IsNodeRefValue (v3.pathNode j) = true →
                  (low.LocateRefNode (v3.pathNode j) idx).1 ≠ None)
            (v3.submitted root) →
     ∀ out, v3.Build p root idx out →
       ∃ p' lg cn,
         out = Some (p', lg, None)
         ∧ c = Some cn
         ∧ is_Some (v3.FindPath p' (yaml.Value cn))).
Proof.
  intros Hin Href Hloc Hnp. split_and!; [apply Build_total| |].
  - intros Hstrict.
    pose proof (translate_circular_rejected idx c pn r cerr Href Hloc Hstrict)
      as Ht.
    split; [done|]. intros out Hrun.
    assert (v3.failure idx (v3.mkInput c pn)
            = Some ("path item build failed: " +:+ cerr)) as Hfail.
    { unfold v3.failure. by rewrite Ht. }
    destruct (Build_fails p root idx _ _ out Hnp Hin Hfail Hrun)
      as (p' & lg & e & -> & Hitems & j & Hj & Hfj).
    exists p', lg, e. split_and!; [done|done|by exists j|].
    intros Honly. rewrite Forall_forall in Honly.
    destruct (Honly j Hj) as [->|Hnone]; congruence.
  - intros Hlenient Hlocated out Hrun.
    assert (Forall (λ j, v3.panics idx j = false ∧ v3.failure idx j = None)
                   (v3.submitted root)) as Hall.
    { rewrite Forall_forall in Hnp, Hlocated. apply Forall_forall.
      intros j Hj. split; [by apply Hnp|].
      apply translate_lenient; [done|by apply Hlocated]. }
    destruct (Build_succeeds p root idx out Hall Hrun)
      as (p' & lg & m & -> & Hitems & _ & _ & Hkeys & _).
    rewrite Forall_forall in Hall. destruct (Hall _ Hin) as [Hsome Hnofail].
    unfold v3.panics in Hsome.
    destruct (v3.translate idx (v3.mkInput c pn)) as [[lg' [res|e]]|] eqn:Ht;
      [|by unfold v3.failure in Hnofail; rewrite Ht in Hnofail|done].
    destruct (translate_result_key _ _ _ _ Ht) as (cn & Hcn & _).
    simpl in Hcn. exists p', lg, cn. split_and!; [done|done|].
    apply FindPath_is_Some. rewrite Hitems. simpl. apply Hkeys.
    by exists (v3.mkInput c pn), cn.
Qed.

(** C8. Whenever [Paths.Build] returns an error, [PathItems] is what it
    was before the call: the map filled by the consumer is dropped, and
    the error returned is the failure of one of the submitted pairs. *)
Theorem Paths_Build_error_keeps_PathItems (p p' : v3.Paths)
    (root : yaml.Node) (idx : index.SpecIndex) (lg : list string)
    (e : string) :
  v3.Build p root idx (Some (p', lg, Some e)) →
  v3.PathItems p' = v3.PathItems p
  ∧ ∃ j, j ∈ v3.submitted root ∧ v3.failure idx j = Some e.
Proof.
  intros (completion & Hperm & Hout)%Build_inv.
  unfold v3.Build_in in Hout.
  destruct (v3.run idx completion) as [[[outs lg'] [e'|]]|] eqn:Hrun;
    simpl in Hout; [|done..].
  injection Hout as -> -> ->. split; [done|].
  apply run_error in Hrun as (j & Hj & Hf). exists j. by rewrite Hperm.
Qed.

End BuildClaims.

(** ** The theorems on sample documents *)

(** [Paths.Build] on a scalar root: not a mapping, and yet no error. *)
Lemma Paths_Build_accepts_scalar_root :
  utils.IsNodeMap (low.prepared spec_model.scalar_root) = false
  ∧ v3.Build spec_model.empty_paths spec_model.scalar_root
             spec_model.strict_index
             (Some (v3.mkPaths (Some []) [] (Some low.zeroReference), [], None))
  ∧ ∀ out, v3.Build spec_model.empty_paths spec_model.scalar_root
                    spec_model.strict_index out →
           ∃ p' lg, out = Some (p', lg, None).
Proof.
  split_and!.
  - reflexivity.
  - apply (v3.Build_completes spec_model.empty_paths spec_model.scalar_root
             spec_model.strict_index []). reflexivity.
  - intros out Hrun. eexists _, _.
    by apply (Paths_Build_no_children spec_model.empty_paths
                spec_model.scalar_root spec_model.strict_index out eq_refl Hrun).
Qed.

Lemma Build_root_not_a_mapping_witness :
  (utils.IsNodeMap (low.prepared spec_model.scalar_root) = false
   ∧ v2.Build spec_model.empty_responses spec_model.scalar_root
              spec_model.strict_index
     = (spec_model.empty_responses,
        Some "responses build failed: vn node is not a map! line 7, col 3"))
  ∧ (yaml.Content (low.prepared spec_model.scalar_root) = []
     ∧ ∀ out, v3.Build spec_model.empty_paths spec_model.scalar_root
                       spec_model.strict_index out →
              out = Some (v3.mkPaths (Some []) [] (Some low.zeroReference),
                          [], None)).
Proof.
  split.
  - split; [reflexivity|].
    exact (proj1 (@Build_root_not_a_mapping spec_model.externals)
             spec_model.empty_responses spec_model.scalar_root
             spec_model.strict_index eq_refl).
  - split; [reflexivity|]. intros out Hrun.
    exact (proj2 (@Build_root_not_a_mapping spec_model.externals)
             spec_model.empty_paths spec_model.scalar_root
             spec_model.strict_index out eq_refl eq_refl Hrun).
Defined.

(** [{/a: oops, /b: {}}]: the [Build] of the path item of [/a] fails, and
    in every outcome of [Paths.Build] no error is returned and [/a] is
    found in the installed map. *)
Lemma Paths_Build_stores_failed_child :
  BuildPathItem (Some spec_model.key_a) (spec_model.scalar "oops" 1 5)
                spec_model.strict_index
  = (spec_model.scalar "oops" 1 5,
     Some "build failed: node is not a map! line 1, col 5")
  ∧ (∃ out, v3.Build spec_model.empty_paths spec_model.bad_child_paths_doc
                     spec_model.strict_index out)
  ∧ ∀ out, v3.Build spec_model.empty_paths spec_model.bad_child_paths_doc
                    spec_model.strict_index out →
           ∃ p' lg, out = Some (p', lg, None)
                    ∧ is_Some (v3.FindPath p' "/a").
Proof.
  split_and!.
  - vm_compute. reflexivity.
  - apply Build_total.
  - intros out Hrun.
    destruct (Paths_Build_keeps_failed_child
                spec_model.empty_paths spec_model.bad_child_paths_doc
                spec_model.strict_index spec_model.key_a
                (spec_model.scalar "oops" 1 5) (spec_model.scalar "oops" 1 5)
                (spec_model.scalar "oops" 1 5)
                "build failed: node is not a map! line 1, col 5" out)
      as (p' & lg & -> & Hfound & _); [| | | |done|by exists p', lg].
    + left.
    + left. split; reflexivity.
    + vm_compute. reflexivity.
    + submitted_list spec_model.bad_child_paths_doc.
      repeat apply Forall_cons_2; [..|apply Forall_nil_2];
        (split; vm_compute; reflexivity).
Qed.

Lemma Paths_Build_unresolvable_doc_run :
  v3.Build spec_model.empty_paths spec_model.unresolvable_doc
           spec_model.strict_index
           (Some (v3.mkPaths None [] (Some low.zeroReference), [],
                  Some ("path item build failed: cannot find reference: " +:+
                        "#/components/pathItems/Gone at line 3, col 11"))).
Proof.
  assert (v3.Build_in (v3.submitted spec_model.unresolvable_doc)
            spec_model.empty_paths spec_model.unresolvable_doc
            spec_model.strict_index
          = Some (v3.mkPaths None [] (Some low.zeroReference), [],
                  Some ("path item build failed: cannot find reference: " +:+
                        "#/components/pathItems/Gone at line 3, col 11")))
    as <- by (vm_compute; reflexivity).
  apply v3.Build_completes. reflexivity.
Defined.

Lemma Paths_Build_error_keeps_PathItems_witness :
  v3.Build spec_model.empty_paths spec_model.unresolvable_doc
           spec_model.strict_index
           (Some (v3.mkPaths None [] (Some low.zeroReference), [],
                  Some ("path item build failed: cannot find reference: " +:+
                        "#/components/pathItems/Gone at line 3, col 11")))
  ∧ (v3.PathItems (v3.mkPaths None [] (Some low.zeroReference))
     = v3.PathItems spec_model.empty_paths
     ∧ ∃ j, j ∈ v3.submitted spec_model.unresolvable_doc
            ∧ v3.failure spec_model.strict_index j
              = Some ("path item build failed: cannot find reference: " +:+
                      "#/components/pathItems/Gone at line 3, col 11")).
Proof.
  split; [exact Paths_Build_unresolvable_doc_run|].
  exact (Paths_Build_error_keeps_PathItems _ _ _ _ _ _
           Paths_Build_unresolvable_doc_run).
Defined.

Lemma Paths_Build_unresolvable_reference_witness :
  (v3.mkInput (Some spec_model.key_gone) spec_model.gone_ref
     ∈ v3.submitted spec_model.unresolvable_doc
   ∧ IsNodeRefValue spec_model.gone_ref = true
   ∧ (low.LocateRefNode spec_model.gone_ref spec_model.strict_index).1 = None
   ∧ yaml.Content spec_model.gone_ref !! 1%nat
     = Some (spec_model.scalar "#/components/pathItems/Gone" 3 11))
  ∧ v3.translate spec_model.strict_index
      (v3.mkInput (Some spec_model.key_gone) spec_model.gone_ref)
    = Some ([], inr ("path item build failed: cannot find reference: "
                     +:+ "#/components/pathItems/Gone"
                     +:+ " at line " +:+ fmt.dec 3
                     +:+ ", col " +:+ fmt.dec 11))
  ∧ (∃ out, v3.Build spec_model.empty_paths spec_model.unresolvable_doc
                     spec_model.strict_index out)
  ∧ ∀ out, v3.Build spec_model.empty_paths spec_model.unresolvable_doc
                    spec_model.strict_index out →
           ∃ p' lg,
             out = Some (p', lg,
                         Some ("path item build failed: cannot find reference: "
                               +:+ "#/components/pathItems/Gone"
                               +:+ " at line " +:+ fmt.dec 3
                               +:+ ", col " +:+ fmt.dec 11))
             ∧ v3.PathItems p' = v3.PathItems spec_model.empty_paths.
Proof.
  assert (v3.mkInput (Some spec_model.key_gone) spec_model.gone_ref
            ∈ v3.submitted spec_model.unresolvable_doc) as Hin.
  { right. left. }
  split; [split_and!; [exact Hin|reflexivity..]|].
  destruct (Paths_Build_unresolvable_reference
              spec_model.empty_paths spec_model.unresolvable_doc
              spec_model.strict_index (Some spec_model.key_gone)
              spec_model.gone_ref
              (spec_model.scalar "#/components/pathItems/Gone" 3 11))
    as (Ht & Hex & Hall);
    [exact Hin|reflexivity|reflexivity|reflexivity| |].
  - submitted_list spec_model.unresolvable_doc.
    repeat apply Forall_cons_2; [..|apply Forall_nil_2]; vm_compute; reflexivity.
  - split_and!; [exact Ht|exact Hex|].
    intros out Hrun.
    destruct (Hall out Hrun) as (p' & lg & e & -> & Hitems & _ & Honly).
    exists p', lg. split; [|exact Hitems]. rewrite Honly; [reflexivity|].
    submitted_list spec_model.unresolvable_doc.
    repeat apply Forall_cons_2; [..|apply Forall_nil_2].
    + right. vm_compute. reflexivity.
    + left. reflexivity.
Defined.

Lemma Paths_Build_circular_reference_witness :
  (v3.mkInput (Some spec_model.key_loop) spec_model.loop_ref
     ∈ v3.submitted spec_model.circular_doc
   ∧ IsNodeRefValue spec_model.loop_ref = true
   ∧ low.LocateRefNode spec_model.loop_ref spec_model.strict_index
     = (Some (spec_model.mapping [] 50 5),
        Some "circular reference '#/components/pathItems/Loop' found"))
  ∧ ((∃ out, v3.Build spec_model.empty_paths spec_model.circular_doc
                      spec_model.strict_index out)
     ∧ ∀ out, v3.Build spec_model.empty_paths spec_model.circular_doc
                       spec_model.strict_index out →
              ∃ p' lg,
                out = Some (p', lg,
                            Some ("path item build failed: " +:+
                                  "circular reference '#/components/pathItems/Loop' found"))
                ∧ v3.PathItems p' = v3.PathItems spec_model.empty_paths)
  ∧ ((∃ out, v3.Build spec_model.empty_paths spec_model.circular_doc
                      spec_model.lenient_index out)
     ∧ ∀ out, v3.Build spec_model.empty_paths spec_model.circular_doc
                       spec_model.lenient_index out →
              ∃ p' lg, out = Some (p', lg, None)
                       ∧ is_Some (v3.FindPath p' "/loop")).
Proof.
  assert (v3.mkInput (Some spec_model.key_loop) spec_model.loop_ref
            ∈ v3.submitted spec_model.circular_doc) as Hin.
  { left. }
  split; [split_and!; [exact Hin|reflexivity..]|]. split.
  - destruct (Paths_Build_circular_reference
                spec_model.empty_paths spec_model.circular_doc
                spec_model.strict_index (Some spec_model.key_loop)
                spec_model.loop_ref (spec_model.mapping [] 50 5)
                "circular reference '#/components/pathItems/Loop' found"
                Hin eq_refl eq_refl
                ltac:(submitted_list spec_model.circular_doc;
                      repeat apply Forall_cons_2; [..|apply Forall_nil_2];
                      vm_compute; reflexivity))
      as (Hex & Hstrict & _).
    split; [exact Hex|]. intros out Hrun.
    destruct (Hstrict eq_refl) as [_ Hall].
    destruct (Hall out Hrun) as (p' & lg & e & -> & Hitems & _ & Honly).
    exists p', lg. split; [|exact Hitems]. rewrite Honly; [reflexivity|].
    submitted_list spec_model.circular_doc.
    repeat apply Forall_cons_2; [..|apply Forall_nil_2].
    + left. reflexivity.
    + right. vm_compute. reflexivity.
  - destruct (Paths_Build_circular_reference
                spec_model.empty_paths spec_model.circular_doc
                spec_model.lenient_index (Some spec_model.key_loop)
                spec_model.loop_ref (spec_model.mapping [] 50 5)
                "circular reference '#/components/pathItems/Loop' found"
                Hin eq_refl eq_refl
                ltac:(submitted_list spec_model.circular_doc;
                      repeat apply Forall_cons_2; [..|apply Forall_nil_2];
                      vm_compute; reflexivity))
      as (Hex & _ & Hlenient).
    split; [exact Hex|]. intros out Hrun.
    destruct (Hlenient eq_refl) with out as (p' & lg & cn & -> & Hcn & Hfound);
      [|exact Hrun|].
    + submitted_list spec_model.circular_doc.
      repeat apply Forall_cons_2; [..|apply Forall_nil_2];
        vm_compute; intros; discriminate.
    + exists p', lg. split; [reflexivity|]. by injection Hcn as <-.
Defined.

(** [{x-ext: {$ref: ...Gone}, /b: {}}]: the mapping contains a value that
    is a reference without target, as the value of an extension entry. The
    producer skips the entry, the reference is never resolved, and in
    every outcome [Paths.Build] returns no error and installs [/b]. *)
Lemma Paths_Build_skips_extension_reference :
  spec_model.ext_gone_ref
    ∈ yaml.Content (low.prepared spec_model.extension_ref_doc)
  ∧ IsNodeRefValue spec_model.ext_gone_ref = true
  ∧ (low.LocateRefNode spec_model.ext_gone_ref spec_model.strict_index).1
    = None
  ∧ (∃ out, v3.Build spec_model.empty_paths spec_model.extension_ref_doc
                     spec_model.strict_index out)
  ∧ ∀ out, v3.Build spec_model.empty_paths spec_model.extension_ref_doc
                    spec_model.strict_index out →
           ∃ p' lg,
             out = Some (p', lg, None)
             ∧ v3.PathItems p'
               = Some [spec_model.entry spec_model.key_b spec_model.item_b].
Proof.
  split_and!.
  - right. left.
  - reflexivity.
  - reflexivity.
  - apply Build_total.
  - intros out (completion & Hperm & ->)%Build_inv.
    assert (v3.submitted spec_model.extension_ref_doc
            = [v3.mkInput (Some spec_model.key_b) spec_model.item_b]) as Hs
      by reflexivity.
    rewrite Hs in Hperm. apply Permutation_singleton_l in Hperm as <-.
    eexists _, _. split; reflexivity.
Qed.

(** [{x-ext: {$ref: ...Loop}, /b: {}}] with circular references not
    allowed: the reference that would close a cycle is the value of an
    extension entry, and in every outcome [Paths.Build] returns no
    error. *)
Lemma Paths_Build_skips_extension_cycle :
  spec_model.loop_ref
    ∈ yaml.Content (low.prepared spec_model.extension_loop_doc)
  ∧ IsNodeRefValue spec_model.loop_ref = true
  ∧ low.LocateRefNode spec_model.loop_ref spec_model.strict_index
    = (Some (spec_model.mapping [] 50 5),
       Some "circular reference '#/components/pathItems/Loop' found")
  ∧ index.AllowCircularReferenceResolving spec_model.strict_index = false
  ∧ (∃ out, v3.Build spec_model.empty_paths spec_model.extension_loop_doc
                     spec_model.strict_index out)
  ∧ ∀ out, v3.Build spec_model.empty_paths spec_model.extension_loop_doc
                    spec_model.strict_index out →
           ∃ p' lg,
             out = Some (p', lg, None)
             ∧ v3.PathItems p'
               = Some [spec_model.entry spec_model.key_b spec_model.item_b].
Proof.
  split_and!.
  - right. left.
  - reflexivity.
  - reflexivity.
  - reflexivity.
  - apply Build_total.
  - intros out (completion & Hperm & ->)%Build_inv.
    assert (v3.submitted spec_model.extension_loop_doc
            = [v3.mkInput (Some spec_model.key_b) spec_model.item_b]) as Hs
      by reflexivity.
    rewrite Hs in Hperm. apply Permutation_singleton_l in Hperm as <-.
    eexists _, _. split; reflexivity.
Qed.

(** [{/loop: {$ref: ...Loop}, /gone: {$ref: ...Gone}}]: two pairs fail
    when circular references are not allowed, and [Paths.Build] returns
    the failure of the one that completes first; when they are allowed,
    the reference without target still makes every run fail. *)
Example Paths_Build_two_references :
  v3.Build spec_model.empty_paths spec_model.two_references_doc
           spec_model.strict_index
           (Some (v3.mkPaths None [] (Some low.zeroReference), [],
                  Some ("path item build failed: " +:+
                        "circular reference '#/components/pathItems/Loop' found")))
  ∧ v3.Build spec_model.empty_paths spec_model.two_references_doc
             spec_model.strict_index
             (Some (v3.mkPaths None [] (Some low.zeroReference), [],
                    Some ("path item build failed: cannot find reference: " +:+
                          "#/components/pathItems/Gone at line 3, col 11")))
  ∧ ∀ out, v3.Build spec_model.empty_paths spec_model.two_references_doc
                    spec_model.lenient_index out →
           ∃ p' lg,
             out = Some (p', lg,
                         Some ("path item build failed: cannot find reference: "
                               +:+ "#/components/pathItems/Gone at line 3, col 11"))
             ∧ v3.PathItems p' = None.
Proof.
  split_and!.
  - assert (v3.Build_in (v3.submitted spec_model.two_references_doc)
              spec_model.empty_paths spec_model.two_references_doc
              spec_model.strict_index
            = Some (v3.mkPaths None [] (Some low.zeroReference), [],
                    Some ("path item build failed: " +:+
                          "circular reference '#/components/pathItems/Loop' found")))
      as <- by reflexivity.
    apply v3.Build_completes. reflexivity.
  - assert (v3.Build_in
              [v3.mkInput (Some spec_model.key_gone) spec_model.gone_ref;
               v3.mkInput (Some spec_model.key_loop) spec_model.loop_ref]
              spec_model.empty_paths spec_model.two_references_doc
              spec_model.strict_index
            = Some (v3.mkPaths None [] (Some low.zeroReference), [],
                    Some ("path item build failed: cannot find reference: " +:+
                          "#/components/pathItems/Gone at line 3, col 11")))
      as <- by reflexivity.
    apply v3.Build_completes.
    submitted_list spec_model.two_references_doc. apply perm_swap.
  - intros out Hrun.
    destruct (Build_fails spec_model.empty_paths spec_model.two_references_doc
                spec_model.lenient_index
                (v3.mkInput (Some spec_model.key_gone) spec_model.gone_ref)
                ("path item build failed: cannot find reference: " +:+
                 "#/components/pathItems/Gone at line 3, col 11") out)
      as (p' & lg & e & -> & Hitems & j & Hj & Hfj);
      [|right; left|vm_compute; reflexivity|exact Hrun|].
    + submitted_list spec_model.two_references_doc.
      repeat apply Forall_cons_2; [..|apply Forall_nil_2]; vm_compute; reflexivity.
    + exists p', lg. split; [|exact Hitems].
      revert Hj Hfj. submitted_list spec_model.two_references_doc.
      intros [->|[->|Hnil%elem_of_nil]%elem_of_cons]%elem_of_cons Hfj;
        [|by injection Hfj as <-|done].
      vm_compute in Hfj. discriminate Hfj.
Qed.

(** [{x-1: x-2, /k: {}, /gone: {$ref: ...Gone}}]: the value of the
    extension begins with the reserved prefix, so that [/k] is swallowed
    and its value is submitted without key node. When that pair completes
    first the worker panics; when the reference completes first [Build]
    returns its error. *)
Example Paths_Build_prefixed_extension_doc :
  v3.submitted spec_model.prefixed_extension_doc
  = [v3.mkInput None spec_model.item_k;
     v3.mkInput (Some spec_model.key_gone3) spec_model.gone_ref]
  ∧ v3.Build spec_model.empty_paths spec_model.prefixed_extension_doc
             spec_model.strict_index None
  ∧ v3.Build spec_model.empty_paths spec_model.prefixed_extension_doc
             spec_model.strict_index
             (Some (v3.mkPaths None (ExtractExtensions
                                       spec_model.prefixed_extension_doc)
                               (Some low.zeroReference), [],
                    Some ("path item build failed: cannot find reference: " +:+
                          "#/components/pathItems/Gone at line 3, col 11"))).
Proof.
  split_and!.
  - reflexivity.
  - assert (v3.Build_in (v3.submitted spec_model.prefixed_extension_doc)
              spec_model.empty_paths spec_model.prefixed_extension_doc
              spec_model.strict_index = None) as <- by reflexivity.
    apply v3.Build_completes. reflexivity.
  - assert (v3.Build_in
              [v3.mkInput (Some spec_model.key_gone3) spec_model.gone_ref;
               v3.mkInput None spec_model.item_k]
              spec_model.empty_paths spec_model.prefixed_extension_doc
              spec_model.strict_index
            = Some (v3.mkPaths None (ExtractExtensions
                                       spec_model.prefixed_extension_doc)
                               (Some low.zeroReference), [],
                    Some ("path item build failed: cannot find reference: " +:+
                          "#/components/pathItems/Gone at line 3, col 11")))
      as <- by reflexivity.
    apply v3.Build_completes.
    submitted_list spec_model.prefixed_extension_doc. apply perm_swap.
Qed.

(** * Further properties of the two files *)

(** ** [FindPathAndKey] and the producer *)

Lemma FindPathAndKey_pairs_spec {V} (path : string)
    (l : list (KeyReference.t * V)) :
  match v3.FindPathAndKey_pairs path l with
  | (Some k, Some v) =>
      KeyReference.Value k = path ∧ v3.FindPath_pairs path l = Some v
      ∧ (k, v) ∈ l
  | (None, None) => v3.FindPath_pairs path l = None
  | _ => False
  end.
Proof.
  induction l as [|[k v] l IH]; simpl; [done|].
  destruct (String.eqb_spec (KeyReference.Value k) path) as [Heq|Hne].
  - split_and!; [done|done|left].
  - destruct (v3.FindPathAndKey_pairs path l) as [[k'|] [v'|]]; try done.
    destruct IH as (Hk & Hv & Hin). split_and!; [done|done|by right].
Qed.

(** X1. [FindPathAndKey] returns a key and a value together or neither;
    the value is the one [FindPath] returns, the key is the key of that
    entry and its decoded value is the path asked for. *)
Theorem FindPathAndKey_agrees_with_FindPath `{Externals}
    (p : v3.Paths) (path : string) :
  match v3.FindPathAndKey p path with
  | (Some k, Some v) =>
      KeyReference.Value k = path ∧ v3.FindPath p path = Some v
      ∧ (k, v) ∈ orderedmap.pairs (v3.PathItems p)
  | (None, None) => v3.FindPath p path = None
  | _ => False
  end.
Proof.
  unfold v3.FindPathAndKey, v3.FindPath.
  apply (FindPathAndKey_pairs_spec path (orderedmap.pairs (v3.PathItems p))).
Qed.

Lemma lower_byte_x (c : ascii) :
  strings.lower_byte c = "x"%char ↔ c = "x"%char ∨ c = "X"%char.
Proof.
  split.
  - destruct c as [[] [] [] [] [] [] [] []]; vm_compute; intros Heq;
      first [discriminate Heq | by left | by right].
  - by intros [-> | ->].
Qed.

Lemma lower_byte_dash (c : ascii) :
  strings.lower_byte c = "-"%char ↔ c = "-"%char.
Proof.
  split; [|by intros ->].
  destruct c as [[] [] [] [] [] [] [] []]; vm_compute; intros Heq;
    first [discriminate Heq | reflexivity].
Qed.

(** X2. The test the producer makes on a node holds exactly for the texts
    that begin with ["x-"] or ["X-"]. *)
Theorem prefixed_iff (n : yaml.Node) :
  v3.prefixed n = true ↔
  ∃ c rest, yaml.Value n = String c (String "-" rest)
            ∧ (c = "x"%char ∨ c = "X"%char).
Proof.
  unfold v3.prefixed. destruct (yaml.Value n) as [|c1 [|c2 rest]]; simpl.
  - split; [done|]. by intros (c & r & Heq & _).
  - rewrite andb_false_r. split; [done|]. by intros (c & r & Heq & _).
  - assert (strings.HasPrefix (strings.ToLower rest) "" = true) as ->
      by by destruct (strings.ToLower rest).
    rewrite andb_true_r, andb_true_iff, !Ascii.eqb_eq.
    rewrite lower_byte_x, lower_byte_dash. split.
    + intros [Hc ->]. by exists c1, rest.
    + intros (c & r & [= -> -> ->] & Hc). done.
Qed.

Lemma producer_from_never_prefixed (content : list yaml.Node) (i : nat)
    (skip : bool) (current : option yaml.Node) :
  (∀ c, current = Some c → v3.prefixed c = false) →
  Forall (λ j, v3.prefixed (v3.pathNode j) = false
               ∧ ∀ c, v3.currentNode j = Some c → v3.prefixed c = false)
         (v3.producer_from i skip current content).
Proof.
  revert i skip current.
  induction content as [|n rest IH]; intros i skip current Hcur; [constructor|].
  rewrite producer_from_cons. destruct (v3.prefixed n) eqn:Hn; [by apply IH|].
  destruct skip; [by apply IH|].
  destruct (Nat.even i).
  - apply IH. by intros c [= <-].
  - constructor; [done|by apply IH].
Qed.

(** X3. Whatever the child list, the producer never submits a node whose
    text begins with the reserved prefix, neither as value nor as key. *)
Theorem producer_never_submits_prefixed (content : list yaml.Node) :
  Forall (λ j, v3.prefixed (v3.pathNode j) = false
               ∧ ∀ c, v3.currentNode j = Some c → v3.prefixed c = false)
         (v3.producer content).
Proof. apply producer_from_never_prefixed. intros c Hc. discriminate Hc. Qed.

Lemma producer_from_positions (pre rest : list yaml.Node) (skip : bool)
    (current : option yaml.Node) :
  (∀ c, current = Some c →
        ∃ i', (i' < length pre)%nat ∧ Nat.even i' = true ∧ pre !! i' = Some c) →
  Forall (λ j, ∃ i, Nat.odd i = true
                    ∧ (pre ++ rest) !! i = Some (v3.pathNode j)
                    ∧ ∀ c, v3.currentNode j = Some c →
                           ∃ i', (i' < i)%nat ∧ Nat.even i' = true
                                 ∧ (pre ++ rest) !! i' = Some c)
         (v3.producer_from (length pre) skip current rest).
Proof.
  revert pre skip current.
  induction rest as [|n rest IH]; intros pre skip current Hcur; [constructor|].
  assert (∀ skip' current',
            (∀ c, current' = Some c →
                  ∃ i', (i' < length (pre ++ [n]))%nat ∧ Nat.even i' = true
                        ∧ (pre ++ [n]) !! i' = Some c) →
            Forall (λ j, ∃ i, Nat.odd i = true
                              ∧ (pre ++ n :: rest) !! i = Some (v3.pathNode j)
                              ∧ ∀ c, v3.currentNode j = Some c →
                                     ∃ i', (i' < i)%nat ∧ Nat.even i' = true
                                           ∧ (pre ++ n :: rest) !! i' = Some c)
                   (v3.producer_from (S (length pre)) skip' current' rest))
    as Hnext.
  { intros skip' current' Hcur'.
    specialize (IH (pre ++ [n]) skip' current' Hcur').
    rewrite length_app, Nat.add_1_r, <-(assoc_L (++)) in IH. exact IH. }
  assert (∀ c, current = Some c →
               ∃ i', (i' < length (pre ++ [n]))%nat ∧ Nat.even i' = true
                     ∧ (pre ++ [n]) !! i' = Some c) as Hcur1.
  { intros c Hc. destruct (Hcur c Hc) as (i' & Hlt & Hev & Hi').
    exists i'. rewrite length_app. split_and!; [lia|done|].
    by rewrite lookup_app_l. }
  rewrite producer_from_cons. destruct (v3.prefixed n); [by apply Hnext|].
  destruct skip; [by apply Hnext|].
  destruct (Nat.even (length pre)) eqn:Hev.
  - apply Hnext. intros c [= <-]. exists (length pre).
    rewrite length_app. split_and!; [simpl; lia|done|].
    by rewrite lookup_app_r, Nat.sub_diag.
  - constructor; [|by apply Hnext]. exists (length pre). split_and!.
    + by rewrite <-Nat.negb_even, Hev.
    + by rewrite lookup_app_r, Nat.sub_diag.
    + simpl. intros c Hc. destruct (Hcur c Hc) as (i' & Hlt & Hev' & Hi').
      exists i'. split_and!; [done|done|]. by rewrite lookup_app_l.
Qed.

(** X4. Every value the producer submits sits at an odd index of the
    child list, and the key submitted with it sits at an even index before
    it. *)
Theorem producer_positions (content : list yaml.Node) :
  Forall (λ j, ∃ i, Nat.odd i = true
                    ∧ content !! i = Some (v3.pathNode j)
                    ∧ ∀ c, v3.currentNode j = Some c →
                           ∃ i', (i' < i)%nat ∧ Nat.even i' = true
                                 ∧ content !! i' = Some c)
         (v3.producer content).
Proof.
  apply (producer_from_positions [] content false None).
  intros c Hc. discriminate Hc.
Qed.

(** X5. On a mapping none of whose values is a scalar that begins with
    the reserved prefix, [Build] submits, in declaration order, exactly the
    pairs whose key does not begin with it, each value with its own key. *)
Theorem submitted_non_extension_pairs `{Externals} (root : yaml.Node)
    (kvs : list (yaml.Node * yaml.Node)) :
  yaml.Content (low.prepared root) = v3.flat_content kvs →
  Forall (λ kv, v3.prefixed kv.2 = false) kvs →
  v3.submitted root
  = (λ kv, v3.mkInput (Some kv.1) kv.2)
      <$> filter (λ kv, v3.prefixed kv.1 = false) kvs
  ∧ v3.submitted_keys root
    = yaml.Value <$> filter (λ k, v3.prefixed k = false) kvs.*1.
Proof.
  intros Hcontent Hvalues. unfold v3.submitted_keys, v3.submitted.
  rewrite Hcontent, producer_flat_content by done. split; [done|].
  clear Hcontent Hvalues.
  induction kvs as [|[k v] kvs IH]; [done|].
  rewrite fmap_cons, !filter_cons. cbn [fst snd].
  case_decide; [|done]. rewrite !fmap_cons. cbn. by rewrite IH.
Qed.

Lemma submitted_non_extension_pairs_witness :
  v3.submitted spec_model.extension_doc
  = [v3.mkInput (Some spec_model.key_a) spec_model.item_a;
     v3.mkInput (Some spec_model.key_b3) spec_model.item_b3]
  ∧ v3.submitted_keys spec_model.extension_doc = ["/a"; "/b"].
Proof.
  apply (@submitted_non_extension_pairs spec_model.externals
           spec_model.extension_doc
           [(spec_model.key_a, spec_model.item_a);
            (spec_model.scalar "x-foo" 2 1, spec_model.scalar "bar" 2 8);
            (spec_model.key_b3, spec_model.item_b3)]).
  - reflexivity.
  - repeat constructor.
Defined.

(** ** What [Paths.Build] leaves behind *)

(** The outcome of [Build] on the sample document with a reference that
    is not located, and on the one with a child whose [Build] fails. *)
Lemma Paths_Build_bad_child_doc_run :
  v3.Build spec_model.empty_paths spec_model.bad_child_paths_doc
           spec_model.strict_index
           (Some (v3.mkPaths
                    (Some [spec_model.entry spec_model.key_a
                             (spec_model.scalar "oops" 1 5);
                           spec_model.entry spec_model.key_b spec_model.item_b])
                    [] (Some low.zeroReference),
                  [v3.error_line "build failed: node is not a map! line 1, col 5"],
                  None)).
Proof.
  assert (v3.Build_in (v3.submitted spec_model.bad_child_paths_doc)
            spec_model.empty_paths spec_model.bad_child_paths_doc
            spec_model.strict_index
          = Some (v3.mkPaths
                    (Some [spec_model.entry spec_model.key_a
                             (spec_model.scalar "oops" 1 5);
                           spec_model.entry spec_model.key_b spec_model.item_b])
                    [] (Some low.zeroReference),
                  [v3.error_line "build failed: node is not a map! line 1, col 5"],
                  None))
    as <- by reflexivity.
  apply v3.Build_completes. reflexivity.
Defined.

Section PathsBuildMore.
Context `{Externals}.

(** X6. Whenever [Paths.Build] returns, with an error or without, the
    extensions of the receiver are those extracted from the root and a new
    reference is allocated. *)
Theorem Paths_Build_installs_extensions (p p' : v3.Paths) (root : yaml.Node)
    (idx : index.SpecIndex) (lg : list string) (err : option string) :
  v3.Build p root idx (Some (p', lg, err)) →
  v3.Extensions p' = ExtractExtensions (low.prepared root)
  ∧ v3.Reference p' = Some low.zeroReference.
Proof.
  intros (completion & _ & Hout)%Build_inv. unfold v3.Build_in in Hout.
  destruct (v3.run idx completion) as [[[outs lg'] [e|]]|]; simpl in Hout;
    [..|done]; by simplify_eq/=.
Qed.

(** The two ways in which the translate function fails. *)
Lemma failure_inv (idx : index.SpecIndex) (j : v3.buildInput) (e : string) :
  v3.failure idx j = Some e →
  IsNodeRefValue (v3.pathNode j) = true
  ∧ ((∃ n, (low.LocateRefNode (v3.pathNode j) idx).1 = None
           ∧ yaml.Content (v3.pathNode j) !! 1%nat = Some n
           ∧ e = "path item build failed: cannot find reference: " +:+
                 yaml.Value n +:+ " at line " +:+ fmt.dec (yaml.Line n) +:+
                 ", col " +:+ fmt.dec (yaml.Column n))
     ∨ (∃ r cerr, low.LocateRefNode (v3.pathNode j) idx = (Some r, Some cerr)
                  ∧ index.AllowCircularReferenceResolving idx = false
                  ∧ e = "path item build failed: " +:+ cerr)).
Proof.
  unfold v3.failure, v3.translate. destruct j as [c pn]. simpl.
  destruct (IsNodeRefValue pn).
  - destruct (low.LocateRefNode pn idx) as [[r|] [cerr|]]; simpl.
    + destruct (index.AllowCircularReferenceResolving idx); simpl.
      * destruct (BuildPathItem c r idx). by destruct c.
      * intros [= <-]. split; [done|]. right. by exists r, cerr.
    + destruct (BuildPathItem c r idx). by destruct c.
    + destruct (yaml.Content pn !! 1%nat) as [n|]; simpl; [|done].
      intros [= <-]. split; [done|]. left. by exists n.
    + destruct (yaml.Content pn !! 1%nat) as [n|]; simpl; [|done].
      intros [= <-]. split; [done|]. left. by exists n.
  - destruct (BuildPathItem c pn idx). by destruct c.
Qed.

(** X7. An error returned by [Paths.Build] always comes from a submitted
    value that is a reference: either the reference is not located, and the
    error names its text, line and column, or it is located with an error
    while circular references are not allowed, and the error wraps that
    error. The error of a child's [Build] is never returned. *)
Theorem Paths_Build_error_comes_from_a_reference (p p' : v3.Paths)
    (root : yaml.Node) (idx : index.SpecIndex) (lg : list string)
    (e : string) :
  v3.Build p root idx (Some (p', lg, Some e)) →
  ∃ c pn,
    v3.mkInput c pn ∈ v3.submitted root
    ∧ IsNodeRefValue pn = true
    ∧ ((∃ n, (low.LocateRefNode pn idx).1 = None
             ∧ yaml.Content pn !! 1%nat = Some n
             ∧ e = "path item build failed: cannot find reference: " +:+
                   yaml.Value n +:+ " at line " +:+ fmt.dec (yaml.Line n) +:+
                   ", col " +:+ fmt.dec (yaml.Column n))
       ∨ (∃ r cerr, low.LocateRefNode pn idx = (Some r, Some cerr)
                    ∧ index.AllowCircularReferenceResolving idx = false
                    ∧ e = "path item build failed: " +:+ cerr)).
Proof.
  intros (completion & Hperm & Hout)%Build_inv. unfold v3.Build_in in Hout.
  destruct (v3.run idx completion) as [[[outs lg'] [e'|]]|] eqn:Hrun;
    simpl in Hout; [|done..].
  simplify_eq/=.
  apply run_error in Hrun as ([c pn] & Hin & Hfail).
  apply failure_inv in Hfail as [Href Hform]. simpl in *.
  exists c, pn. split_and!; [by rewrite Hperm|done|done].
Qed.

(** What one call of the translate function logs: at most the line for
    the error of the [Build] of the path item, built from the node the
    value stands for. *)
Lemma translate_logged (idx : index.SpecIndex) (j : v3.buildInput)
    (lg : list string) r :
  v3.translate idx j = Some (lg, r) →
  (index.HasLogger idx = false → lg = [])
  ∧ Forall (λ line, ∃ pn' path be,
                      v3.stands_for idx (v3.pathNode j) pn'
                      ∧ BuildPathItem (v3.currentNode j) pn' idx = (path, Some be)
                      ∧ line = v3.error_line be) lg.
Proof.
  unfold v3.translate, v3.error_line. destruct j as [c pn]. simpl.
  destruct (IsNodeRefValue pn) eqn:Href.
  - destruct (low.LocateRefNode pn idx) as [[r'|] err] eqn:Hloc.
    + assert (v3.stands_for idx pn r') as Hfor.
      { right. split; [done|]. by exists err. }
      destruct err as [e|]; simpl;
        [destruct (index.AllowCircularReferenceResolving idx); simpl|].
      * destruct (BuildPathItem c r' idx) as [path [be|]] eqn:Hb;
          (destruct c as [cn|]; [|done]); simpl; intros [= <- _].
        -- destruct (index.HasLogger idx); (split; [done|]); [|constructor].
           constructor; [|constructor]. by exists r', path, be.
        -- split; [done|constructor].
      * intros [= <- _]. split; [done|constructor].
      * destruct (BuildPathItem c r' idx) as [path [be|]] eqn:Hb;
          (destruct c as [cn|]; [|done]); simpl; intros [= <- _].
        -- destruct (index.HasLogger idx); (split; [done|]); [|constructor].
           constructor; [|constructor]. by exists r', path, be.
        -- split; [done|constructor].
    + destruct (yaml.Content pn !! 1%nat); simpl; [|done].
      intros [= <- _]. split; [done|constructor].
  - assert (v3.stands_for idx pn pn) as Hfor by (by left).
    destruct (BuildPathItem c pn idx) as [path [be|]] eqn:Hb;
      (destruct c as [cn|]; [|done]); simpl; intros [= <- _].
    + destruct (index.HasLogger idx); (split; [done|]); [|constructor].
      constructor; [|constructor]. by exists pn, path, be.
    + split; [done|constructor].
Qed.

Lemma run_logged (idx : index.SpecIndex) (js : list v3.buildInput)
    outs (lg : list string) err :
  v3.run idx js = Some (outs, lg, err) →
  (index.HasLogger idx = false → lg = [])
  ∧ Forall (λ line, ∃ j pn' path be,
                      j ∈ js
                      ∧ v3.stands_for idx (v3.pathNode j) pn'
                      ∧ BuildPathItem (v3.currentNode j) pn' idx = (path, Some be)
                      ∧ line = v3.error_line be) lg.
Proof.
  revert outs lg err. induction js as [|j js IH]; intros outs lg err; simpl.
  - intros [= <- <- <-]. split; [done|constructor].
  - destruct (v3.translate idx j) as [[lg1 r]|] eqn:Ht; [|done].
    destruct (translate_logged idx j lg1 r Ht) as [Hnone Hlines].
    assert (Forall (λ line, ∃ j' pn' path be,
                      j' ∈ j :: js
                      ∧ v3.stands_for idx (v3.pathNode j') pn'
                      ∧ BuildPathItem (v3.currentNode j') pn' idx = (path, Some be)
                      ∧ line = v3.error_line be) lg1) as Hlines1.
    { eapply Forall_impl; [exact Hlines|]. simpl.
      intros line (pn' & path & be & Hfor & Hb & ->).
      exists j, pn', path, be. split_and!; [left|done|done|done]. }
    destruct r as [res|e].
    + destruct (v3.run idx js) as [[[o l] er]|] eqn:Hrun; simpl; [|done].
      intros [= <- <- <-]. destruct (IH _ _ _ eq_refl) as [Hnone' Hlines'].
      split.
      * intros Hno. by rewrite Hnone, Hnone'.
      * apply Forall_app. split; [done|].
        eapply Forall_impl; [exact Hlines'|]. simpl.
        intros line (j' & pn' & path & be & Hin & Hfor & Hb & ->).
        exists j', pn', path, be. split_and!; [by right|done|done|done].
    + intros [= <- <- <-]. done.
Qed.

(** X8. Every line [Paths.Build] logs reports the error of the [Build]
    of the path item of a submitted pair, built under the key node of the
    pair from the node its value stands for (the value itself, or the
    located target when the value is a reference); without a logger
    nothing is logged. *)
Theorem Paths_Build_logs_child_failures (p p' : v3.Paths) (root : yaml.Node)
    (idx : index.SpecIndex) (lg : list string) (err : option string) :
  v3.Build p root idx (Some (p', lg, err)) →
  (index.HasLogger idx = false → lg = [])
  ∧ Forall (λ line, ∃ j pn' path be,
                      j ∈ v3.submitted root
                      ∧ v3.stands_for idx (v3.pathNode j) pn'
                      ∧ BuildPathItem (v3.currentNode j) pn' idx = (path, Some be)
                      ∧ line = v3.error_line be) lg.
Proof.
  intros (completion & Hperm & Hout)%Build_inv. unfold v3.Build_in in Hout.
  destruct (v3.run idx completion) as [[[outs lg'] er]|] eqn:Hrun;
    simpl in Hout; [|done].
  assert (lg' = lg) as -> by (destruct er; by simplify_eq/=).
  destruct (run_logged _ _ _ _ _ Hrun) as [Hnone Hlines]. split; [done|].
  eapply Forall_impl; [exact Hlines|]. simpl.
  intros line (j & pn' & path & be & Hin & Hfor & Hb & ->).
  exists j, pn', path, be. split_and!; [by rewrite Hperm|done|done|done].
Qed.

End PathsBuildMore.

Lemma Paths_Build_installs_extensions_witness :
  v3.Extensions (v3.mkPaths None [] (Some low.zeroReference))
  = ExtractExtensions (low.prepared spec_model.unresolvable_doc)
  ∧ v3.Reference (v3.mkPaths None [] (Some low.zeroReference))
    = Some low.zeroReference.
Proof.
  exact (Paths_Build_installs_extensions _ _ _ _ _ _
           Paths_Build_unresolvable_doc_run).
Defined.

Lemma Paths_Build_error_comes_from_a_reference_witness :
  ∃ c pn,
    v3.mkInput c pn ∈ v3.submitted spec_model.unresolvable_doc
    ∧ IsNodeRefValue pn = true
    ∧ ((∃ n, (low.LocateRefNode pn spec_model.strict_index).1 = None
             ∧ yaml.Content pn !! 1%nat = Some n
             ∧ "path item build failed: cannot find reference: " +:+
               "#/components/pathItems/Gone at line 3, col 11"
               = "path item build failed: cannot find reference: " +:+
                 yaml.Value n +:+ " at line " +:+ fmt.dec (yaml.Line n) +:+
                 ", col " +:+ fmt.dec (yaml.Column n))
       ∨ (∃ r cerr,
            low.LocateRefNode pn spec_model.strict_index = (Some r, Some cerr)
            ∧ index.AllowCircularReferenceResolving spec_model.strict_index
              = false
            ∧ "path item build failed: cannot find reference: " +:+
              "#/components/pathItems/Gone at line 3, col 11"
              = "path item build failed: " +:+ cerr)).
Proof.
  exact (Paths_Build_error_comes_from_a_reference _ _ _ _ _ _
           Paths_Build_unresolvable_doc_run).
Defined.

Lemma Paths_Build_logs_child_failures_witness :
  (index.HasLogger spec_model.strict_index = false →
   [v3.error_line "build failed: node is not a map! line 1, col 5"] = [])
  ∧ Forall (λ line, ∃ j pn' path be,
                      j ∈ v3.submitted spec_model.bad_child_paths_doc
                      ∧ v3.stands_for spec_model.strict_index (v3.pathNode j) pn'
                      ∧ BuildPathItem (v3.currentNode j) pn'
                                      spec_model.strict_index = (path, Some be)
                      ∧ line = v3.error_line be)
           [v3.error_line "build failed: node is not a map! line 1, col 5"].
Proof.
  exact (Paths_Build_logs_child_failures _ _ _ _ _ _
           Paths_Build_bad_child_doc_run).
Defined.

(** ** [Paths.Build] followed by [FindPath] and [Hash] *)

Lemma FindPath_pairs_Set_eq {V} (m : orderedmap.Map V) (k : KeyReference.t)
    (v : V) :
  v3.FindPath_pairs (KeyReference.Value k) (orderedmap.Set_ m k v) = Some v.
Proof.
  induction m as [|[k' v'] m IH]; simpl.
  - by rewrite String.eqb_refl.
  - unfold orderedmap.same_key.
    destruct (String.eqb_spec (KeyReference.Value k') (KeyReference.Value k))
      as [Heq|Hne]; simpl.
    + apply String.eqb_eq in Heq. by rewrite Heq.
    + apply String.eqb_neq in Hne. by rewrite Hne.
Qed.

Lemma FindPath_pairs_Set_ne {V} (m : orderedmap.Map V) (k : KeyReference.t)
    (v : V) (s : string) :
  s ≠ KeyReference.Value k →
  v3.FindPath_pairs s (orderedmap.Set_ m k v) = v3.FindPath_pairs s m.
Proof.
  intros Hne. induction m as [|[k' v'] m IH]; simpl.
  - destruct (String.eqb_spec (KeyReference.Value k) s); [congruence|done].
  - unfold orderedmap.same_key.
    destruct (String.eqb_spec (KeyReference.Value k') (KeyReference.Value k))
      as [Heq|Hne']; simpl.
    + destruct (String.eqb_spec (KeyReference.Value k') s); [congruence|done].
    + by rewrite IH.
Qed.

Lemma Set_absent {V} (m : orderedmap.Map V) (k : KeyReference.t) (v : V) :
  KeyReference.Value k ∉ orderedmap.keys m →
  orderedmap.Set_ m k v = m ++ [(k, v)].
Proof.
  unfold orderedmap.keys. induction m as [|[k' v'] m IH]; [done|].
  rewrite fmap_cons, not_elem_of_cons. cbn [fst]. intros [Hne Hnot].
  cbn [orderedmap.Set_]. unfold orderedmap.same_key.
  destruct (String.eqb_spec (KeyReference.Value k') (KeyReference.Value k));
    [congruence|]. by rewrite IH.
Qed.

(** An entry of a map after [Set]: its key was in the map, or is the key
    just stored. *)
Lemma Set_entry_inv {V} (m : orderedmap.Map V) (k k0 : KeyReference.t)
    (v v0 : V) :
  (k0, v0) ∈ orderedmap.Set_ m k v → (∃ v', (k0, v') ∈ m) ∨ k0 = k.
Proof.
  induction m as [|[k1 v1] m IH]; simpl.
  - intros Hin%list_elem_of_singleton. right. congruence.
  - destruct (orderedmap.same_key k1 k).
    + intros [Heq|Hin]%elem_of_cons; left.
      * exists v1. injection Heq as -> _. left.
      * exists v0. by right.
    + intros [Heq|Hin]%elem_of_cons.
      * left. exists v0. rewrite Heq. left.
      * destruct (IH Hin) as [(v' & Hv')|Hk]; [|by right].
        left. exists v'. by right.
Qed.

Section PathsBuildFind.
Context `{Externals}.

Lemma collect_from_entry_inv (outs : list v3.buildResult)
    (m : orderedmap.Map (ValueReference.t (option PathItem)))
    (k0 : KeyReference.t) (v0 : ValueReference.t (option PathItem)) :
  (k0, v0)
    ∈ fold_left (λ m res, orderedmap.Set_ m (v3.key res) (v3.value res)) outs m →
  (∃ v', (k0, v') ∈ m) ∨ ∃ res, res ∈ outs ∧ v3.key res = k0.
Proof.
  revert m. induction outs as [|res outs IH]; intros m; simpl.
  - intros Hm. left. by exists v0.
  - intros [(v' & Hv')|(res' & Hr & Hk')]%IH.
    + destruct (Set_entry_inv _ _ _ _ _ Hv') as [Hm|Hk]; [by left|].
      right. exists res. split; [left|done].
    + right. exists res'. split; [by right|done].
Qed.

(** Looking up a key in the map the consumer fills: the value of the
    results with that key, when they all carry the same value. *)
Lemma collect_from_find (outs : list v3.buildResult)
    (m : orderedmap.Map (ValueReference.t (option PathItem)))
    (s : string) (v : ValueReference.t (option PathItem)) :
  (∀ res, res ∈ outs → KeyReference.Value (v3.key res) = s → v3.value res = v) →
  (∃ res, res ∈ outs ∧ KeyReference.Value (v3.key res) = s)
  ∨ v3.FindPath_pairs s m = Some v →
  v3.FindPath_pairs s
    (fold_left (λ m res, orderedmap.Set_ m (v3.key res) (v3.value res)) outs m)
  = Some v.
Proof.
  revert m. induction outs as [|res outs IH]; intros m Hsame Hhas; simpl.
  - destruct Hhas as [(res & Hin & _)|Hm]; [|done]. by apply elem_of_nil in Hin.
  - apply IH; [intros res' Hin; apply Hsame; by right|].
    destruct (decide (KeyReference.Value (v3.key res) = s)) as [Hk|Hk].
    + right. rewrite <-Hk, <-(Hsame res); [|left|done].
      apply FindPath_pairs_Set_eq.
    + rewrite FindPath_pairs_Set_ne by done.
      destruct Hhas as [(res' & [->|Hin]%elem_of_cons & Hk')|Hm];
        [done| |by right].
      left. by exists res'.
Qed.

(** With pairwise distinct keys the consumer only appends. *)
Lemma collect_from_distinct (outs : list v3.buildResult)
    (m : orderedmap.Map (ValueReference.t (option PathItem))) :
  NoDup (orderedmap.keys m
         ++ ((λ res, KeyReference.Value (v3.key res)) <$> outs)) →
  fold_left (λ m res, orderedmap.Set_ m (v3.key res) (v3.value res)) outs m
  = m ++ ((λ res, (v3.key res, v3.value res)) <$> outs).
Proof.
  revert m. induction outs as [|res outs IH]; intros m Hnd; simpl.
  - by rewrite (right_id_L [] (++)).
  - rewrite fmap_cons in Hnd.
    assert (KeyReference.Value (v3.key res) ∉ orderedmap.keys m) as Hnot.
    { apply NoDup_app in Hnd as (_ & Hdisj & _). intros Hin.
      apply (Hdisj _ Hin). left. }
    rewrite Set_absent by done. rewrite IH.
    + by rewrite <-(assoc_L (++)).
    + unfold orderedmap.keys in *. rewrite fmap_app, <-(assoc_L (++)). done.
Qed.

Lemma run_success_results (idx : index.SpecIndex) (js : list v3.buildInput)
    outs lg :
  v3.run idx js = Some (outs, lg, None) →
  omap (v3.result idx) js = outs
  ∧ omap (λ j, yaml.Value <$> v3.currentNode j) js
    = (λ res, KeyReference.Value (v3.key res)) <$> outs
  ∧ Forall (λ j, is_Some (v3.currentNode j)) js.
Proof.
  intros Hres%run_success.
  induction Hres as [|j res js outs (lg' & Ht & _) _ (IH1 & IH2 & IH3)];
    [done|].
  destruct (translate_result_key _ _ _ _ Ht) as (cn & Hcn & Hkey).
  simpl. unfold v3.result at 1. rewrite Ht, Hcn. simpl.
  change (list_omap _ _ (v3.result idx) js) with (omap (v3.result idx) js).
  change (list_omap _ _ (λ j0, yaml.Value <$> v3.currentNode j0) js)
    with (omap (λ j0, yaml.Value <$> v3.currentNode j0) js).
  rewrite IH1, IH2, Hkey. split_and!; [done|done|].
  constructor; [by rewrite Hcn|done].
Qed.

(** X9. After a [Build] without error, the decoded keys of [PathItems]
    are pairwise distinct; they are exactly the texts of the key nodes of
    the submitted pairs, and every submitted pair had a key node. *)
Theorem Paths_Build_installs_submitted_keys (p p' : v3.Paths)
    (root : yaml.Node) (idx : index.SpecIndex) (lg : list string) :
  v3.Build p root idx (Some (p', lg, None)) →
  ∃ m, v3.PathItems p' = Some m
       ∧ orderedmap.wf m
       ∧ (∀ s, s ∈ orderedmap.keys m ↔ s ∈ v3.submitted_keys root)
       ∧ Forall (λ j, is_Some (v3.currentNode j)) (v3.submitted root).
Proof.
  intros (completion & Hperm & Hout)%Build_inv. unfold v3.Build_in in Hout.
  destruct (v3.run idx completion) as [[[outs lg'] [e|]]|] eqn:Hrun;
    simpl in Hout; [done| |done].
  simplify_eq/=. destruct (run_success_results _ _ _ _ Hrun) as (_ & Hkeys & Hall).
  destruct (collect_spec outs) as [Hwf Hin].
  exists (v3.collect outs). split_and!; [done|done| |by rewrite Hperm].
  intros s. rewrite Hin. unfold v3.submitted_keys. rewrite Hperm, Hkeys.
  rewrite list_elem_of_fmap. split; intros (res & ? & ?); by exists res.
Qed.

(** X10. After a [Build] in which no worker fails or panics, [FindPath]
    on the text of a submitted key that no other submitted pair carries
    returns the path item built for that pair, together with the node it
    was built from: the value itself, or the located target when the value
    is a reference. [FindPathAndKey] returns the key node as well. *)
Theorem Paths_Build_then_FindPath (p : v3.Paths) (root : yaml.Node)
    (idx : index.SpecIndex) (cn pn pn' : yaml.Node) (path : PathItem)
    (err : option string) out :
  Forall (λ j, v3.panics idx j = false ∧ v3.failure idx j = None)
         (v3.submitted root) →
  v3.mkInput (Some cn) pn ∈ v3.submitted root →
  Forall (λ j, ∀ c, v3.currentNode j = Some c →
                    yaml.Value c = yaml.Value cn → j = v3.mkInput (Some cn) pn)
         (v3.submitted root) →
  v3.stands_for idx pn pn' →
  BuildPathItem (Some cn) pn' idx = (path, err) →
  v3.Build p root idx out →
  ∃ p' lg,
    out = Some (p', lg, None)
    ∧ v3.FindPath p' (yaml.Value cn)
      = Some (ValueReference.mk (Some path) (Some pn'))
    ∧ v3.FindPathAndKey p' (yaml.Value cn)
      = (Some (KeyReference.mk (yaml.Value cn) (Some cn)),
         Some (ValueReference.mk (Some path) (Some pn'))).
Proof.
  intros Hall Hin Huniq Hfor Hbuild (completion & Hperm & ->)%Build_inv.
  destruct (run_succeeds idx completion) as (outs & lg & Hrun).
  { by rewrite <-Hperm. }
  pose proof (run_success _ _ _ _ Hrun) as Hres.
  unfold v3.Build_in. rewrite Hrun. simpl. eexists _, lg. split; [done|].
  rewrite Forall_forall in Hall, Huniq. destruct (Hall _ Hin) as [_ Hnofail].
  pose proof (translate_built idx cn pn pn' path err Hfor Hnofail Hbuild) as Ht.
  assert (v3.FindPath_pairs (yaml.Value cn) (v3.collect outs)
          = Some (ValueReference.mk (Some path) (Some pn'))) as Hfind.
  { apply collect_from_find.
    - intros res Hres_in Hk.
      apply list_elem_of_lookup in Hres_in as [i Hi].
      destruct (Forall2_lookup_r _ _ _ _ _ Hres Hi) as (j & Hj & lg' & Htj & _).
      destruct (translate_result_key _ _ _ _ Htj) as (c & Hc & Hkey).
      rewrite Hkey in Hk. simpl in Hk.
      assert (j = v3.mkInput (Some cn) pn) as ->.
      { apply (Huniq j) with c; [|done|done].
        rewrite Hperm. by eapply list_elem_of_lookup_2. }
      rewrite Ht in Htj. by injection Htj as _ <-.
    - left. rewrite Hperm in Hin.
      apply list_elem_of_lookup in Hin as [i Hi].
      destruct (Forall2_lookup_l _ _ _ _ _ Hres Hi) as (res & Hr & lg' & Htj & _).
      exists res. split; [by eapply list_elem_of_lookup_2|].
      rewrite Ht in Htj. by injection Htj as _ <-. }
  split; [done|].
  unfold v3.FindPathAndKey. simpl.
  pose proof (FindPathAndKey_pairs_spec (yaml.Value cn) (v3.collect outs)) as Hpk.
  destruct (v3.FindPathAndKey_pairs (yaml.Value cn) (v3.collect outs))
    as [[k|] [v|]]; [|done|done|by rewrite Hfind in Hpk].
  destruct Hpk as (Hk & Hv & Hkv). rewrite Hfind in Hv. injection Hv as <-.
  f_equal. f_equal.
  destruct (collect_from_entry_inv outs orderedmap.New _ _ Hkv)
    as [(v' & Hv')|(res & Hres_in & <-)]; [by apply elem_of_nil in Hv'|].
  apply list_elem_of_lookup in Hres_in as [i Hi].
  destruct (Forall2_lookup_r _ _ _ _ _ Hres Hi) as (j & Hj & lg' & Htj & _).
  destruct (translate_result_key _ _ _ _ Htj) as (c & Hc & Hkey).
  rewrite Hkey in Hk. simpl in Hk.
  assert (j = v3.mkInput (Some cn) pn) as ->.
  { apply (Huniq j) with c; [|done|done].
    rewrite Hperm. by eapply list_elem_of_lookup_2. }
  simpl in Hc. injection Hc as <-. by rewrite Hkey.
Qed.

(** X11. When the submitted keys are pairwise distinct, two runs of
    [Build] on the same root that return no error install the same entries
    (in the order in which the workers completed) and the same extensions,
    and the two objects have the same [Hash]. *)
Theorem Paths_Build_Hash_independent_of_completion (p p1 p2 : v3.Paths)
    (root : yaml.Node) (idx : index.SpecIndex) (lg1 lg2 : list string) :
  NoDup (v3.submitted_keys root) →
  v3.Build p root idx (Some (p1, lg1, None)) →
  v3.Build p root idx (Some (p2, lg2, None)) →
  orderedmap.pairs (v3.PathItems p1) ≡ₚ orderedmap.pairs (v3.PathItems p2)
  ∧ v3.Extensions p1 = v3.Extensions p2
  ∧ v3.Hash p1 = v3.Hash p2.
Proof.
  intros Hnd (c1 & Hperm1 & Hout1)%Build_inv (c2 & Hperm2 & Hout2)%Build_inv.
  unfold v3.Build_in in Hout1, Hout2.
  destruct (v3.run idx c1) as [[[outs1 l1] [e1|]]|] eqn:Hrun1;
    simpl in Hout1; [done| |done].
  destruct (v3.run idx c2) as [[[outs2 l2] [e2|]]|] eqn:Hrun2;
    simpl in Hout2; [done| |done].
  simplify_eq/=.
  destruct (run_success_results _ _ _ _ Hrun1) as (Hres1 & Hkeys1 & _).
  destruct (run_success_results _ _ _ _ Hrun2) as (Hres2 & Hkeys2 & _).
  assert (∀ c outs,
            v3.submitted root ≡ₚ c →
            omap (λ j, yaml.Value <$> v3.currentNode j) c
            = (λ res, KeyReference.Value (v3.key res)) <$> outs →
            v3.collect outs = (λ res, (v3.key res, v3.value res)) <$> outs)
    as Hcollect.
  { intros c outs Hperm Hkeys. unfold v3.collect.
    rewrite collect_from_distinct; [done|]. simpl. rewrite <-Hkeys.
    unfold v3.submitted_keys in Hnd. by rewrite <-Hperm. }
  assert (v3.collect outs1 ≡ₚ v3.collect outs2) as Hitems.
  { rewrite (Hcollect c1 outs1), (Hcollect c2 outs2) by done.
    rewrite <-Hres1, <-Hres2. by rewrite <-Hperm1, <-Hperm2. }
  split_and!; [done|done|].
  unfold v3.Hash. f_equal. f_equal.
  apply Paths_Hash_lines_Permutation; [|done|done].
  simpl. apply collect_spec.
Qed.

End PathsBuildFind.

Lemma Paths_Build_resolved_doc_run_1 :
  v3.Build spec_model.empty_paths spec_model.resolved_doc
           spec_model.strict_index
           (Some (spec_model.built_resolved_1, [], None)).
Proof.
  assert (v3.Build_in (v3.submitted spec_model.resolved_doc)
            spec_model.empty_paths spec_model.resolved_doc
            spec_model.strict_index
          = Some (spec_model.built_resolved_1, [], None))
    as <- by reflexivity.
  apply v3.Build_completes. reflexivity.
Defined.

Lemma Paths_Build_resolved_doc_run_2 :
  v3.Build spec_model.empty_paths spec_model.resolved_doc
           spec_model.strict_index
           (Some (spec_model.built_resolved_2, [], None)).
Proof.
  assert (v3.Build_in
            [v3.mkInput (Some spec_model.key_b) spec_model.item_b;
             v3.mkInput (Some spec_model.key_pets) spec_model.pets_ref]
            spec_model.empty_paths spec_model.resolved_doc
            spec_model.strict_index
          = Some (spec_model.built_resolved_2, [], None))
    as <- by reflexivity.
  apply v3.Build_completes.
  submitted_list spec_model.resolved_doc. apply perm_swap.
Defined.

Lemma Paths_Build_installs_submitted_keys_witness :
  ∃ m, v3.PathItems spec_model.built_resolved_1 = Some m
       ∧ orderedmap.wf m
       ∧ (∀ s, s ∈ orderedmap.keys m ↔
               s ∈ v3.submitted_keys spec_model.resolved_doc)
       ∧ Forall (λ j, is_Some (v3.currentNode j))
                (v3.submitted spec_model.resolved_doc).
Proof.
  exact (Paths_Build_installs_submitted_keys _ _ _ _ _
           Paths_Build_resolved_doc_run_1).
Defined.

Lemma Paths_Build_then_FindPath_witness :
  ∃ (p' : v3.Paths) (lg : list string),
    Some (spec_model.built_resolved_2, @nil string, @None string)
    = Some (p', lg, None)
    ∧ v3.FindPath p' "/pets"
      = Some (ValueReference.mk (Some spec_model.pets_item)
                                (Some spec_model.pets_item))
    ∧ v3.FindPathAndKey p' "/pets"
      = (Some (KeyReference.mk "/pets" (Some spec_model.key_pets)),
         Some (ValueReference.mk (Some spec_model.pets_item)
                                 (Some spec_model.pets_item))).
Proof.
  apply (@Paths_Build_then_FindPath spec_model.externals
           spec_model.empty_paths spec_model.resolved_doc
           spec_model.strict_index spec_model.key_pets spec_model.pets_ref
           spec_model.pets_item spec_model.pets_item None).
  - submitted_list spec_model.resolved_doc.
    repeat apply Forall_cons_2; [..|apply Forall_nil_2];
      (split; vm_compute; reflexivity).
  - left.
  - submitted_list spec_model.resolved_doc.
    repeat apply Forall_cons_2; [..|apply Forall_nil_2].
    + intros c _ _. reflexivity.
    + intros c [= <-] Hv. vm_compute in Hv. discriminate Hv.
  - right. split; [reflexivity|]. by exists None.
  - reflexivity.
  - exact Paths_Build_resolved_doc_run_2.
Defined.

Lemma Paths_Build_Hash_independent_of_completion_witness :
  orderedmap.pairs (v3.PathItems spec_model.built_resolved_1)
    ≡ₚ orderedmap.pairs (v3.PathItems spec_model.built_resolved_2)
  ∧ v3.Extensions spec_model.built_resolved_1
    = v3.Extensions spec_model.built_resolved_2
  ∧ v3.Hash spec_model.built_resolved_1 = v3.Hash spec_model.built_resolved_2.
Proof.
  apply (@Paths_Build_Hash_independent_of_completion spec_model.externals
           spec_model.empty_paths spec_model.built_resolved_1
           spec_model.built_resolved_2 spec_model.resolved_doc
           spec_model.strict_index [] []).
  - apply (bool_decide_unpack
             (NoDup (v3.submitted_keys spec_model.resolved_doc))).
    vm_compute. exact I.
  - exact Paths_Build_resolved_doc_run_1.
  - exact Paths_Build_resolved_doc_run_2.
Defined.

(** ** A child whose [Build] fails *)
Section ChildFailure.
Context `{Externals}.

(** After a [Build] in which no worker fails or panics, the entry found
    under a key text that a single submitted pair carries is the one the
    worker emitted for that pair. *)
Lemma Paths_Build_stores_emitted (p : v3.Paths) (root : yaml.Node)
    (idx : index.SpecIndex) (cn pn : yaml.Node) (lg0 : list string)
    (res : v3.buildResult) out :
  Forall (λ j, v3.panics idx j = false ∧ v3.failure idx j = None)
         (v3.submitted root) →
  v3.mkInput (Some cn) pn ∈ v3.submitted root →
  Forall (λ j, ∀ c, v3.currentNode j = Some c →
                    yaml.Value c = yaml.Value cn → j = v3.mkInput (Some cn) pn)
         (v3.submitted root) →
  v3.translate idx (v3.mkInput (Some cn) pn) = Some (lg0, inl res) →
  v3.Build p root idx out →
  ∃ p' lg, out = Some (p', lg, None)
           ∧ v3.FindPath p' (yaml.Value cn) = Some (v3.value res).
Proof.
  intros Hall Hin Huniq Ht (completion & Hperm & ->)%Build_inv.
  destruct (run_succeeds idx completion) as (outs & lg & Hrun).
  { by rewrite <-Hperm. }
  pose proof (run_success _ _ _ _ Hrun) as Hres.
  unfold v3.Build_in. rewrite Hrun. simpl. eexists _, lg. split; [done|].
  rewrite Forall_forall in Huniq.
  unfold v3.FindPath. simpl. apply collect_from_find.
  - intros res' Hres_in Hk.
    apply list_elem_of_lookup in Hres_in as [i Hi].
    destruct (Forall2_lookup_r _ _ _ _ _ Hres Hi) as (j & Hj & lg' & Htj & _).
    destruct (translate_result_key _ _ _ _ Htj) as (c & Hc & Hkey).
    rewrite Hkey in Hk. simpl in Hk.
    assert (j = v3.mkInput (Some cn) pn) as ->.
    { apply (Huniq j) with c; [|done|done].
      rewrite Hperm. by eapply list_elem_of_lookup_2. }
    rewrite Ht in Htj. by injection Htj as _ <-.
  - left. rewrite Hperm in Hin.
    apply list_elem_of_lookup in Hin as [i Hi].
    destruct (Forall2_lookup_l _ _ _ _ _ Hres Hi) as (res' & Hr & lg' & Htj & _).
    exists res'. split; [by eapply list_elem_of_lookup_2|].
    rewrite Ht in Htj. injection Htj as _ <-.
    destruct (translate_result_key _ _ _ _ Ht) as (c & Hc & Hkey).
    simpl in Hc. injection Hc as <-. by rewrite Hkey.
Qed.

(** C4. When the [Build] of a child fails: [Responses.Build] returns the
    error of the decoder at once, codes and default entry untouched. In
    [Paths.Build], when no submitted reference fails and no worker panics,
    the worker logs the failure when the index has a logger and still
    emits the path item it built, under the key of the pair; [Build] has
    an outcome, and in every outcome it returns no error, the line is in
    the log, every submitted key is found in [PathItems], and [FindPath]
    on the key of the failed child returns that very path item, with the
    node it was built from, when no other submitted pair carries the same
    key text. *)
Theorem Build_child_failure :
  (∀ (r : v2.Responses) (root : yaml.Node) (idx : index.SpecIndex)
     codes (e : string),
     utils.IsNodeMap (low.prepared root) = true →
     ExtractMapNoLookup (low.prepared root) idx = (codes, Some e) →
     v2.Build r root idx
     = (v2.mkResponses (v2.Codes r) (v2.Default r)
                       (ExtractExtensions (low.prepared root)), Some e))
  ∧ (∀ (p : v3.Paths) (root : yaml.Node) (idx : index.SpecIndex)
       (cn pn pn' : yaml.Node) (path : PathItem) (be : string),
     v3.mkInput (Some cn) pn ∈ v3.submitted root →
     v3.stands_for idx pn pn' →
     BuildPathItem (Some cn) pn' idx = (path, Some be) →
     Forall (λ j, v3.panics idx j = false ∧ v3.failure idx j = None)
            (v3.submitted root) →
     v3.translate idx (v3.mkInput (Some cn) pn)
     = Some (if index.HasLogger idx then [v3.error_line be] else [],
             inl (v3.mkResult (KeyReference.mk (yaml.Value cn) (Some cn))
                              (ValueReference.mk (Some path) (Some pn'))))
     ∧ (∃ out, v3.Build p root idx out)
     ∧ ∀ out, v3.Build p root idx out →
         ∃ p' lg,
           out = Some (p', lg, None)
           ∧ (index.HasLogger idx = true → v3.error_line be ∈ lg)
           ∧ (∀ j cn', j ∈ v3.submitted root →
                       v3.currentNode j = Some cn' →
                       is_Some (v3.FindPath p' (yaml.Value cn')))
           ∧ (Forall (λ j, ∀ c, v3.currentNode j = Some c →
                                yaml.Value c = yaml.Value cn →
                                j = v3.mkInput (Some cn) pn)
                     (v3.submitted root) →
              v3.FindPath p' (yaml.Value cn)
              = Some (ValueReference.mk (Some path) (Some pn')))).
Proof.
  split; [apply Responses_Build_decoder_error|].
  intros p root idx cn pn pn' path be Hin Hfor Hbuild Hall.
  assert (v3.failure idx (v3.mkInput (Some cn) pn) = None) as Hnofail.
  { rewrite Forall_forall in Hall. by destruct (Hall _ Hin). }
  pose proof (translate_built idx cn pn pn' path (Some be) Hfor Hnofail Hbuild)
    as Ht.
  split_and!; [done|apply Build_total|].
  intros out Hrun.
  destruct (Paths_Build_keeps_failed_child p root idx cn pn pn' path be out
              Hin Hfor Hbuild Hall Hrun)
    as (p' & lg & -> & _ & Hlog & Hkeys).
  exists p', lg. split_and!; [done|done|done|].
  intros Huniq.
  destruct (Paths_Build_stores_emitted p root idx cn pn _ _ _
              Hall Hin Huniq Ht Hrun) as (p'' & lg'' & Hout & Hfind).
  by simplify_eq.
Qed.

End ChildFailure.

Lemma Build_child_failure_witness :
  (utils.IsNodeMap (low.prepared spec_model.bad_child_responses_doc) = true
   ∧ v2.Build spec_model.empty_responses spec_model.bad_child_responses_doc
              spec_model.strict_index
     = (spec_model.empty_responses,
        Some "build failed: node is not a map! line 1, col 6"))
  ∧ (BuildPathItem (Some spec_model.key_a) (spec_model.scalar "oops" 1 5)
                   spec_model.lenient_index
     = (spec_model.scalar "oops" 1 5,
        Some "build failed: node is not a map! line 1, col 5")
     ∧ (∃ out, v3.Build spec_model.empty_paths spec_model.bad_child_paths_doc
                        spec_model.lenient_index out)
     ∧ ∀ out, v3.Build spec_model.empty_paths spec_model.bad_child_paths_doc
                       spec_model.lenient_index out →
              ∃ p' lg,
                out = Some (p', lg, None)
                ∧ v3.error_line
                    "build failed: node is not a map! line 1, col 5" ∈ lg
                ∧ v3.FindPath p' "/a"
                  = Some (ValueReference.mk
                            (Some (spec_model.scalar "oops" 1 5))
                            (Some (spec_model.scalar "oops" 1 5)))
                ∧ is_Some (v3.FindPath p' "/b")).
Proof.
  split.
  - split; [reflexivity|].
    apply (proj1 (@Build_child_failure spec_model.externals)
             spec_model.empty_responses spec_model.bad_child_responses_doc
             spec_model.strict_index None
             "build failed: node is not a map! line 1, col 6").
    + reflexivity.
    + vm_compute. reflexivity.
  - split; [vm_compute; reflexivity|].
    destruct (proj2 (@Build_child_failure spec_model.externals)
                spec_model.empty_paths spec_model.bad_child_paths_doc
                spec_model.lenient_index spec_model.key_a
                (spec_model.scalar "oops" 1 5) (spec_model.scalar "oops" 1 5)
                (spec_model.scalar "oops" 1 5)
                "build failed: node is not a map! line 1, col 5")
      as (_ & Hex & Hall).
    + left.
    + left. split; reflexivity.
    + vm_compute. reflexivity.
    + submitted_list spec_model.bad_child_paths_doc.
      repeat apply Forall_cons_2; [..|apply Forall_nil_2];
        (split; vm_compute; reflexivity).
    + split; [exact Hex|]. intros out Hrun.
      destruct (Hall out Hrun) as (p' & lg & -> & Hlog & Hkeys & Hfind).
      exists p', lg. split_and!; [done|by apply Hlog| |].
      * apply Hfind. submitted_list spec_model.bad_child_paths_doc.
        repeat apply Forall_cons_2; [..|apply Forall_nil_2].
        -- intros c _ _. reflexivity.
        -- intros c [= <-] Hv. vm_compute in Hv. discriminate Hv.
      * apply (Hkeys (v3.mkInput (Some spec_model.key_b) spec_model.item_b)
                     spec_model.key_b); [right; left|reflexivity].
Defined.

(** [{/a: oops, /a: {}}]: with two pairs under one key text the entry
    holds the item of the pair that completed last: the other one in
    submission order, the failed one in the reverse order. *)
Example Paths_Build_duplicate_key_last_wins :
  v3.Build spec_model.empty_paths spec_model.duplicate_key_doc
           spec_model.strict_index
           (Some (v3.mkPaths
                    (Some [(KeyReference.mk "/a" (Some spec_model.key_a),
                            ValueReference.mk (Some spec_model.item_b)
                                              (Some spec_model.item_b))])
                    [] (Some low.zeroReference),
                  [v3.error_line "build failed: node is not a map! line 1, col 5"],
                  None))
  ∧ v3.Build spec_model.empty_paths spec_model.duplicate_key_doc
             spec_model.strict_index
             (Some (v3.mkPaths
                      (Some [(KeyReference.mk "/a" (Some spec_model.key_a2),
                              ValueReference.mk
                                (Some (spec_model.scalar "oops" 1 5))
                                (Some (spec_model.scalar "oops" 1 5)))])
                      [] (Some low.zeroReference),
                    [v3.error_line "build failed: node is not a map! line 1, col 5"],
                    None)).
Proof.
  split.
  - assert (v3.Build_in (v3.submitted spec_model.duplicate_key_doc)
              spec_model.empty_paths spec_model.duplicate_key_doc
              spec_model.strict_index
            = Some (v3.mkPaths
                      (Some [(KeyReference.mk "/a" (Some spec_model.key_a),
                              ValueReference.mk (Some spec_model.item_b)
                                                (Some spec_model.item_b))])
                      [] (Some low.zeroReference),
                    [v3.error_line
                       "build failed: node is not a map! line 1, col 5"],
                    None))
      as <- by reflexivity.
    apply v3.Build_completes. reflexivity.
  - assert (v3.Build_in
              [v3.mkInput (Some spec_model.key_a2) spec_model.item_b;
               v3.mkInput (Some spec_model.key_a) (spec_model.scalar "oops" 1 5)]
              spec_model.empty_paths spec_model.duplicate_key_doc
              spec_model.strict_index
            = Some (v3.mkPaths
                      (Some [(KeyReference.mk "/a" (Some spec_model.key_a2),
                              ValueReference.mk
                                (Some (spec_model.scalar "oops" 1 5))
                                (Some (spec_model.scalar "oops" 1 5)))])
                      [] (Some low.zeroReference),
                    [v3.error_line
                       "build failed: node is not a map! line 1, col 5"],
                    None))
      as <- by reflexivity.
    apply v3.Build_completes.
    submitted_list spec_model.duplicate_key_doc. apply perm_swap.
Qed.

(** ** What [Hash] reads *)

Lemma assign_all_lookup_fmap {V W} (g : V → W) (l : list (string * V))
    (k : string) :
  g <$> (low.assign_all l !! k)
  = low.assign_all (prod_map id g <$> l) !! k.
Proof.
  rewrite !assign_all_list_to_map, <-fmap_reverse, list_to_map_fmap.
  by rewrite lookup_fmap.
Qed.

(** An assignment overwritten later in the loop leaves no trace. *)
Lemma assign_all_shadowed {V} (l1 l2 : list (string * V)) (k : string)
    (v v' : V) :
  k ∈ l2.*1 →
  low.assign_all (l1 ++ (k, v) :: l2) = low.assign_all (l1 ++ (k, v') :: l2).
Proof.
  intros Hin. unfold low.assign_all. rewrite !fold_left_app. simpl.
  rewrite !assign_all_from. apply map_eq. intros i.
  destruct ((list_to_map (reverse l2) : gmap string V) !! i) as [w|] eqn:Hi.
  - by rewrite !(lookup_union_l' _ _ i) by (rewrite Hi; eauto).
  - assert (i ≠ k) as Hne.
    { intros ->. apply not_elem_of_list_to_map in Hi.
      apply Hi. by rewrite fmap_reverse, elem_of_reverse. }
    rewrite !lookup_union_r by done. by rewrite !lookup_insert_ne.
Qed.

Section HashReads.
Context `{Externals}.

Lemma extension_lines_content
    (e1 e2 : list (KeyReference.t * ValueReference.t Any)) :
  low.content <$> e1 = low.content <$> e2 →
  low.extension_lines e1 = low.extension_lines e2.
Proof.
  intros Heq. unfold low.extension_lines.
  change (λ e : KeyReference.t * ValueReference.t Any,
            KeyReference.Value e.1 +:+ "-" +:+
            fmt.hex (sha256.Sum256 (Sprint (ValueReference.Value e.2))))
    with ((λ kv : string * Any,
             kv.1 +:+ "-" +:+ fmt.hex (sha256.Sum256 (Sprint kv.2)))
          ∘ low.content).
  by rewrite !list_fmap_compose, Heq.
Qed.

Lemma keys_content {V} (l1 l2 : list (KeyReference.t * ValueReference.t V)) :
  low.content <$> l1 = low.content <$> l2 → orderedmap.keys l1 = orderedmap.keys l2.
Proof.
  intros Heq. unfold orderedmap.keys.
  change (λ e : KeyReference.t * ValueReference.t V, KeyReference.Value e.1)
    with (fst ∘ (@low.content V)).
  by rewrite !list_fmap_compose, Heq.
Qed.

(** X12. [Hash] reads the decoded keys, the child values and the
    extension values, and nothing of the nodes they came from nor of the
    reference of the object: two [Paths] with the same keys and values in
    the same order, and two [Responses] with in addition the same default
    entry, have the same digest. *)
Theorem Hash_ignores_nodes :
  (∀ p1 p2 : v3.Paths,
     low.content <$> orderedmap.pairs (v3.PathItems p1)
     = low.content <$> orderedmap.pairs (v3.PathItems p2) →
     low.content <$> v3.Extensions p1 = low.content <$> v3.Extensions p2 →
     v3.Hash p1 = v3.Hash p2)
  ∧ (∀ r1 r2 : v2.Responses,
     low.content <$> orderedmap.pairs (v2.Codes r1)
     = low.content <$> orderedmap.pairs (v2.Codes r2) →
     v2.Default r1 = v2.Default r2 →
     low.content <$> v2.Extensions r1 = low.content <$> v2.Extensions r2 →
     v2.Hash r1 = v2.Hash r2).
Proof.
  split.
  - intros p1 p2 Hitems Hext. unfold v3.Hash, v3.Hash_lines.
    rewrite (keys_content _ _ Hitems), (extension_lines_content _ _ Hext).
    do 3 f_equal. apply list_fmap_ext. intros _ k _. do 3 f_equal.
    rewrite !(assign_all_lookup_fmap ValueReference.Value).
    rewrite <-!list_fmap_compose.
    change (prod_map id ValueReference.Value
            ∘ (λ e : KeyReference.t * ValueReference.t (option PathItem),
                 (KeyReference.Value e.1, e.2)))
      with (@low.content (option PathItem)).
    by rewrite Hitems.
  - intros r1 r2 Hitems Hdef Hext. unfold v2.Hash, v2.Hash_lines.
    rewrite (keys_content _ _ Hitems), (extension_lines_content _ _ Hext), Hdef.
    change (λ e : KeyReference.t * ValueReference.t (option Response),
              (KeyReference.Value e.1, ValueReference.Value e.2))
      with (@low.content (option Response)).
    by rewrite Hitems.
Qed.

(** X13. [Hash] indexes the children by their decoded key, so an entry
    followed by another entry with the same decoded key does not count: its
    value can be replaced without changing the digest. *)
Theorem Hash_shadowed_entry :
  (∀ l1 l2 (k : KeyReference.t) (v v' : ValueReference.t (option PathItem))
     exts ref,
     KeyReference.Value k ∈ orderedmap.keys l2 →
     v3.Hash (v3.mkPaths (Some (l1 ++ (k, v) :: l2)) exts ref)
     = v3.Hash (v3.mkPaths (Some (l1 ++ (k, v') :: l2)) exts ref))
  ∧ (∀ l1 l2 (k : KeyReference.t) (v v' : ValueReference.t (option Response))
       def exts,
     KeyReference.Value k ∈ orderedmap.keys l2 →
     v2.Hash (v2.mkResponses (Some (l1 ++ (k, v) :: l2)) def exts)
     = v2.Hash (v2.mkResponses (Some (l1 ++ (k, v') :: l2)) def exts)).
Proof.
  split.
  - intros l1 l2 k v v' exts ref Hin. unfold v3.Hash, v3.Hash_lines. simpl.
    assert (orderedmap.keys (l1 ++ (k, v) :: l2)
            = orderedmap.keys (l1 ++ (k, v') :: l2)) as ->.
    { unfold orderedmap.keys. by rewrite !fmap_app. }
    rewrite !fmap_app, !fmap_cons. simpl.
    rewrite (assign_all_shadowed _ _ _ v v'); [done|].
    unfold orderedmap.keys in Hin. by rewrite <-list_fmap_compose.
  - intros l1 l2 k v v' def exts Hin. unfold v2.Hash, v2.Hash_lines. simpl.
    assert (orderedmap.keys (l1 ++ (k, v) :: l2)
            = orderedmap.keys (l1 ++ (k, v') :: l2)) as ->.
    { unfold orderedmap.keys. by rewrite !fmap_app. }
    rewrite !fmap_app, !fmap_cons. simpl.
    rewrite (assign_all_shadowed _ _ _ (ValueReference.Value v)
                                 (ValueReference.Value v')); [done|].
    unfold orderedmap.keys in Hin. by rewrite <-list_fmap_compose.
Qed.

End HashReads.

Lemma Hash_ignores_nodes_witness :
  v3.Hash spec_model.paths_ab = v3.Hash spec_model.paths_ab_moved
  ∧ v2.Hash spec_model.responses_ab = v2.Hash spec_model.responses_ab_moved.
Proof.
  split.
  - exact (proj1 (@Hash_ignores_nodes spec_model.externals)
             spec_model.paths_ab spec_model.paths_ab_moved eq_refl eq_refl).
  - exact (proj2 (@Hash_ignores_nodes spec_model.externals)
             spec_model.responses_ab spec_model.responses_ab_moved
             eq_refl eq_refl eq_refl).
Defined.

Lemma Hash_shadowed_entry_witness :
  v3.Hash spec_model.paths_shadowed_1 = v3.Hash spec_model.paths_shadowed_2
  ∧ v2.Hash spec_model.responses_shadowed_1
    = v2.Hash spec_model.responses_shadowed_2.
Proof.
  split.
  - apply (proj1 (@Hash_shadowed_entry spec_model.externals)
             [] [spec_model.entry spec_model.key_a9 spec_model.item_b]
             (spec_model.entry spec_model.key_a spec_model.item_a).1
             (spec_model.entry spec_model.key_a spec_model.item_a).2
             (spec_model.entry spec_model.key_a
                (spec_model.scalar "other" 1 5)).2
             spec_model.exts_1 None).
    left.
  - apply (proj2 (@Hash_shadowed_entry spec_model.externals)
             [] [spec_model.entry spec_model.key_a9 spec_model.item_b]
             (spec_model.entry spec_model.key_a spec_model.item_a).1
             (spec_model.entry spec_model.key_a spec_model.item_a).2
             (spec_model.entry spec_model.key_a
                (spec_model.scalar "other" 1 5)).2
             spec_model.no_default spec_model.exts_1).
    left.
Defined.

(** ** [getDefault], [deleteCode] and the outcomes of [Responses.Build] *)
Section ResponsesMore.
Context `{Externals}.

Lemma getDefault_pairs_first
    (l : list (KeyReference.t * ValueReference.t (option Response)))
    (def : NodeReference.t (option Response)) :
  v2.getDefault_pairs l = Some def ↔
  ∃ l1 k v l2,
    l = l1 ++ (k, v) :: l2
    ∧ strings.ToLower (KeyReference.Value k) = v2.DefaultLabel
    ∧ Forall (λ e, strings.ToLower (KeyReference.Value e.1) ≠ v2.DefaultLabel) l1
    ∧ def = NodeReference.mk (ValueReference.Value v)
                             (ValueReference.ValueNode v)
                             (KeyReference.KeyNode k).
Proof.
  induction l as [|[k' v'] l IH]; simpl.
  - split; [done|]. intros (l1 & k & v & l2 & Hl & _). by destruct l1.
  - destruct (String.eqb_spec (strings.ToLower (KeyReference.Value k'))
                              v2.DefaultLabel) as [Heq|Hne].
    + split.
      * intros [= <-]. exists [], k', v', l. by split_and!.
      * intros ([|e l1] & k & v & l2 & Hl & Hk & Hl1 & ->); simplify_eq/=;
          [done|]. by apply Forall_cons_1 in Hl1 as [? _].
    + rewrite IH. split.
      * intros (l1 & k & v & l2 & -> & Hk & Hl1 & ->).
        exists ((k', v') :: l1), k, v, l2. split_and!; [done|done| |done].
        by constructor.
      * intros ([|e l1] & k & v & l2 & Hl & Hk & Hl1 & ->); simplify_eq/=.
        exists l1, k, v, l2. split_and!; [done|done| |done].
        by apply Forall_cons_1 in Hl1 as [_ ?].
Qed.

Lemma getDefault_pairs_None
    (l : list (KeyReference.t * ValueReference.t (option Response))) :
  v2.getDefault_pairs l = None ↔
  Forall (λ e, strings.ToLower (KeyReference.Value e.1) ≠ v2.DefaultLabel) l.
Proof.
  induction l as [|[k v] l IH]; simpl; [by split; [constructor|]|].
  destruct (String.eqb_spec (strings.ToLower (KeyReference.Value k))
                            v2.DefaultLabel) as [Heq|Hne].
  - split; [done|]. by intros [? _]%Forall_cons_1.
  - rewrite IH. split; [by constructor|]. by intros [_ ?]%Forall_cons_1.
Qed.

(** X14. [getDefault] returns the first entry of the codes, in insertion
    order, whose key lower-cased is the reserved label, with the value, the
    value node and the key node of that entry, and nothing when no key
    matches. *)
Theorem getDefault_first_match (r : v2.Responses) :
  (∀ def,
     v2.getDefault r = Some def ↔
     ∃ l1 k v l2,
       orderedmap.pairs (v2.Codes r) = l1 ++ (k, v) :: l2
       ∧ strings.ToLower (KeyReference.Value k) = v2.DefaultLabel
       ∧ Forall (λ e, strings.ToLower (KeyReference.Value e.1)
                      ≠ v2.DefaultLabel) l1
       ∧ def = NodeReference.mk (ValueReference.Value v)
                                (ValueReference.ValueNode v)
                                (KeyReference.KeyNode k))
  ∧ (v2.getDefault r = None ↔
     Forall (λ e, strings.ToLower (KeyReference.Value e.1) ≠ v2.DefaultLabel)
            (orderedmap.pairs (v2.Codes r))).
Proof.
  unfold v2.getDefault. split.
  - intros def. apply getDefault_pairs_first.
  - apply getDefault_pairs_None.
Qed.

Lemma filter_not_key {V} (m : list (KeyReference.t * V)) (code : string) :
  code ∉ orderedmap.keys m →
  filter (λ e, KeyReference.Value e.1 ≠ code) m = m.
Proof.
  unfold orderedmap.keys. induction m as [|[k v] m IH]; [done|].
  rewrite fmap_cons, not_elem_of_cons. cbn [fst]. intros [Hne Hnot].
  rewrite filter_cons. cbn [fst]. rewrite decide_True by done.
  by rewrite IH.
Qed.

Lemma Delete_filter {V} (m : list (KeyReference.t * V)) (k : KeyReference.t) :
  orderedmap.Delete m k
  = filter (λ e, KeyReference.Value e.1 ≠ KeyReference.Value k) m.
Proof.
  unfold orderedmap.Delete, orderedmap.same_key, orderedmap.Map in *.
  induction m as [|[k' v] m IH]; [done|].
  rewrite !filter_cons. cbn [fst]. rewrite IH.
  destruct (String.eqb_spec (KeyReference.Value k') (KeyReference.Value k)).
  - rewrite decide_False by done. rewrite decide_False; [done|].
    by intros ?.
  - rewrite decide_True by done. by rewrite decide_True.
Qed.

(** X15. [deleteCode] on codes with pairwise distinct decoded keys removes
    the entry whose decoded key is the code, keeps the other entries in
    their order, and leaves the default entry and the extensions alone;
    when no key is the code, or the codes are nil, nothing changes. *)
Theorem deleteCode_removes_the_code (r : v2.Responses) (code : string) :
  orderedmap.wf (orderedmap.pairs (v2.Codes r)) →
  orderedmap.pairs (v2.Codes (v2.deleteCode r code))
  = filter (λ e, KeyReference.Value e.1 ≠ code) (orderedmap.pairs (v2.Codes r))
  ∧ (code ∉ orderedmap.keys
              (orderedmap.pairs (v2.Codes (v2.deleteCode r code))))
  ∧ orderedmap.wf (orderedmap.pairs (v2.Codes (v2.deleteCode r code)))
  ∧ v2.Default (v2.deleteCode r code) = v2.Default r
  ∧ v2.Extensions (v2.deleteCode r code) = v2.Extensions r
  ∧ (code ∉ orderedmap.keys (orderedmap.pairs (v2.Codes r)) →
     v2.deleteCode r code = r).
Proof.
  intros Hwf.
  assert (orderedmap.pairs (v2.Codes (v2.deleteCode r code))
          = filter (λ e, KeyReference.Value e.1 ≠ code)
                   (orderedmap.pairs (v2.Codes r))
          ∧ v2.Default (v2.deleteCode r code) = v2.Default r
          ∧ v2.Extensions (v2.deleteCode r code) = v2.Extensions r
          ∧ (code ∉ orderedmap.keys (orderedmap.pairs (v2.Codes r)) →
             v2.deleteCode r code = r)) as (Hpairs & Hdef & Hext & Hsame).
  { unfold v2.deleteCode. destruct r as [[m|] def exts]; simpl.
    - destruct (v2.deleteCode_key code m) as [k|] eqn:Hkey; simpl.
      + apply deleteCode_key_Some in Hkey as Hk. subst code.
        split_and!; [apply Delete_filter|done|done|].
        intros Hnot. apply deleteCode_key_None in Hnot. congruence.
      + apply deleteCode_key_None in Hkey.
        by rewrite filter_not_key.
    - done. }
  split_and!; [done| | |done|done|done].
  - rewrite Hpairs. unfold orderedmap.keys. rewrite list_elem_of_fmap.
    intros ([k v] & -> & [Hne _]%list_elem_of_filter). done.
  - rewrite Hpairs. unfold orderedmap.wf, orderedmap.keys in *.
    eapply NoDup_fmap_2_strong; [|by apply NoDup_filter, (NoDup_fmap_1 _ _ Hwf)].
    intros [k1 v1] [k2 v2] [_ H1]%list_elem_of_filter [_ H2]%list_elem_of_filter
      Heq. simpl in Heq.
    apply list_elem_of_lookup in H1 as [i1 Hi1].
    apply list_elem_of_lookup in H2 as [i2 Hi2].
    assert (i1 = i2) as ->; [|congruence].
    apply (NoDup_lookup _ _ _ (KeyReference.Value k1) Hwf);
      rewrite list_lookup_fmap; [by rewrite Hi1|by rewrite Hi2, Heq].
Qed.

(** X16. [Responses.Build] always replaces the extensions by those
    extracted from the root. It returns no error exactly when the root is a
    mapping and the map decoder returns none; when it does return an error,
    the codes and the default entry are what they were. *)
Theorem Responses_Build_outcomes (r : v2.Responses) (root : yaml.Node)
    (idx : index.SpecIndex) :
  v2.Extensions (v2.Build r root idx).1 = ExtractExtensions (low.prepared root)
  ∧ ((v2.Build r root idx).2 = None ↔
     utils.IsNodeMap (low.prepared root) = true
     ∧ (ExtractMapNoLookup (low.prepared root) idx).2 = None)
  ∧ (∀ e, (v2.Build r root idx).2 = Some e →
          v2.Codes (v2.Build r root idx).1 = v2.Codes r
          ∧ v2.Default (v2.Build r root idx).1 = v2.Default r).
Proof.
  unfold v2.Build.
  destruct (utils.IsNodeMap (low.prepared root)); simpl.
  2:{ split_and!; [done|split; [done|by intros [? _]]|done]. }
  destruct (ExtractMapNoLookup (low.prepared root) idx) as [codes [e|]]; simpl.
  { split_and!; [done|split; [done|by intros [_ ?]]|done]. }
  destruct codes as [c|]; simpl.
  - unfold v2.getDefault. simpl.
    destruct (v2.getDefault_pairs c) as [def|]; simpl; [|by split_and!].
    unfold v2.deleteCode. simpl.
    destruct (v2.deleteCode_key v2.DefaultLabel c); simpl; by split_and!.
  - unfold v2.getDefault. simpl.
    destruct (v2.getDefault_pairs (orderedmap.pairs (v2.Codes r))) as [def|];
      simpl; [|by split_and!].
    unfold v2.deleteCode. simpl.
    destruct (v2.Codes r) as [m|]; simpl; [|by split_and!].
    destruct (v2.deleteCode_key v2.DefaultLabel m); simpl; by split_and!.
Qed.

(** X17. When exactly one key of the decoded codes lower-cases to the
    reserved label and it is spelled ["default"], [Responses.Build] moves
    that entry into the default field with its value and its two nodes, and
    the codes keep all the other entries, in their order. *)
Theorem Responses_Build_moves_default (r : v2.Responses) (root : yaml.Node)
    (idx : index.SpecIndex) l1 l2 (k : KeyReference.t)
    (v : ValueReference.t (option Response)) :
  utils.IsNodeMap (low.prepared root) = true →
  ExtractMapNoLookup (low.prepared root) idx
  = (Some (l1 ++ (k, v) :: l2), None) →
  KeyReference.Value k = v2.DefaultLabel →
  Forall (λ e, strings.ToLower (KeyReference.Value e.1) ≠ v2.DefaultLabel)
         (l1 ++ l2) →
  v2.Build r root idx
  = (v2.mkResponses (Some (l1 ++ l2))
                    (NodeReference.mk (ValueReference.Value v)
                                      (ValueReference.ValueNode v)
                                      (KeyReference.KeyNode k))
                    (ExtractExtensions (low.prepared root)),
     None).
Proof.
  intros Hmap Hdec Hk Hothers. unfold v2.Build. rewrite Hmap, Hdec.
  apply Forall_app in Hothers as [Hl1 Hl2].
  assert (∀ l, Forall (λ e : KeyReference.t * ValueReference.t (option Response),
                         strings.ToLower (KeyReference.Value e.1)
                         ≠ v2.DefaultLabel) l →
               v2.DefaultLabel ∉ orderedmap.keys l) as Hnot.
  { intros l Hl. unfold orderedmap.keys. rewrite list_elem_of_fmap.
    intros (e & He & Hin). rewrite Forall_forall in Hl.
    apply (Hl e Hin). by rewrite <-He. }
  unfold v2.getDefault. simpl.
  assert (v2.getDefault_pairs (l1 ++ (k, v) :: l2)
          = Some (NodeReference.mk (ValueReference.Value v)
                                   (ValueReference.ValueNode v)
                                   (KeyReference.KeyNode k))) as ->.
  { apply getDefault_pairs_first. exists l1, k, v, l2.
    split_and!; [done|by rewrite Hk|done|done]. }
  unfold v2.deleteCode. simpl.
  destruct (v2.deleteCode_key v2.DefaultLabel (l1 ++ (k, v) :: l2))
    as [key|] eqn:Hkey.
  2:{ apply deleteCode_key_None in Hkey. destruct Hkey.
      unfold orderedmap.keys. rewrite fmap_app, fmap_cons. cbn [fst].
      rewrite Hk. apply elem_of_app. right. left. }
  apply deleteCode_key_Some in Hkey. simpl. do 3 f_equal.
  rewrite Delete_filter, Hkey, filter_app, filter_cons. cbn [fst].
  rewrite decide_False; [|by intros ?].
  rewrite !filter_not_key; [done|by apply Hnot..].
Qed.

(** X18. When no key of the decoded codes lower-cases to the reserved
    label, [Responses.Build] installs the codes as decoded and leaves the
    default entry as it was. *)
Theorem Responses_Build_without_default (r : v2.Responses) (root : yaml.Node)
    (idx : index.SpecIndex) codes :
  utils.IsNodeMap (low.prepared root) = true →
  ExtractMapNoLookup (low.prepared root) idx = (Some codes, None) →
  Forall (λ e, strings.ToLower (KeyReference.Value e.1) ≠ v2.DefaultLabel)
         codes →
  v2.Build r root idx
  = (v2.mkResponses (Some codes) (v2.Default r)
                    (ExtractExtensions (low.prepared root)), None).
Proof.
  intros Hmap Hdec Hnone. unfold v2.Build. rewrite Hmap, Hdec.
  unfold v2.getDefault. simpl.
  apply getDefault_pairs_None in Hnone. by rewrite Hnone.
Qed.

End ResponsesMore.

Lemma deleteCode_removes_the_code_witness :
  orderedmap.pairs (v2.Codes (v2.deleteCode spec_model.responses_ab "/a"))
  = filter (λ e, KeyReference.Value e.1 ≠ "/a")
           (orderedmap.pairs (v2.Codes spec_model.responses_ab))
  ∧ ("/a" ∉ orderedmap.keys
              (orderedmap.pairs
                 (v2.Codes (v2.deleteCode spec_model.responses_ab "/a"))))
  ∧ orderedmap.wf
      (orderedmap.pairs (v2.Codes (v2.deleteCode spec_model.responses_ab "/a")))
  ∧ v2.Default (v2.deleteCode spec_model.responses_ab "/a")
    = v2.Default spec_model.responses_ab
  ∧ v2.Extensions (v2.deleteCode spec_model.responses_ab "/a")
    = v2.Extensions spec_model.responses_ab
  ∧ ("/a" ∉ orderedmap.keys
              (orderedmap.pairs (v2.Codes spec_model.responses_ab)) →
     v2.deleteCode spec_model.responses_ab "/a" = spec_model.responses_ab).
Proof.
  apply (@deleteCode_removes_the_code spec_model.externals
           spec_model.responses_ab "/a").
  apply (bool_decide_unpack (NoDup (orderedmap.keys spec_model.items_ab))).
  vm_compute. exact I.
Defined.

Lemma Responses_Build_moves_default_witness :
  v2.Build spec_model.empty_responses spec_model.default_doc
           spec_model.strict_index
  = (v2.mkResponses
       (Some ([spec_model.entry spec_model.key_200 (spec_model.mapping [] 1 6)]
              ++ []))
       (NodeReference.mk (Some (spec_model.mapping [] 2 10))
                         (Some (spec_model.mapping [] 2 10))
                         (Some spec_model.key_default))
       (ExtractExtensions (low.prepared spec_model.default_doc)),
     None).
Proof.
  apply (@Responses_Build_moves_default spec_model.externals
           spec_model.empty_responses spec_model.default_doc
           spec_model.strict_index
           [spec_model.entry spec_model.key_200 (spec_model.mapping [] 1 6)] []
           (spec_model.entry spec_model.key_default
              (spec_model.mapping [] 2 10)).1
           (spec_model.entry spec_model.key_default
              (spec_model.mapping [] 2 10)).2).
  - reflexivity.
  - reflexivity.
  - reflexivity.
  - repeat constructor. vm_compute. discriminate.
Defined.

Lemma Responses_Build_without_default_witness :
  v2.Build spec_model.empty_responses spec_model.extension_doc
           spec_model.strict_index
  = (v2.mkResponses
       (Some [spec_model.entry spec_model.key_a spec_model.item_a;
              spec_model.entry spec_model.key_b3 spec_model.item_b3])
       (v2.Default spec_model.empty_responses)
       (ExtractExtensions (low.prepared spec_model.extension_doc)), None).
Proof.
  apply (@Responses_Build_without_default spec_model.externals
           spec_model.empty_responses spec_model.extension_doc
           spec_model.strict_index).
  - reflexivity.
  - reflexivity.
  - repeat constructor; vm_compute; discriminate.
Defined.
